(** * prompt-merge.py: template discovery, interactive selection and merge

    A shallow embedding of [prompt-merge.py] and the properties of its
    specification.  Python [str] values are modelled as [string]: the
    sequence of their characters, each an [ascii] (code points below 256).
    Integers are [Z]; Python lists are [list].  Functions that touch the
    terminal, the file system or the standard streams are written in a small
    state-and-exception monad over a [world]. *)

From Stdlib Require Import List Bool Arith ZArith Lia Ascii String.
From Stdlib Require Import Permutation Sorted DecimalString.
Import ListNotations.

Local Open Scope string_scope.
Local Open Scope list_scope.

(* ===================================================================== *)
(** * Python string primitives *)
(* ===================================================================== *)

Module PyStr.

(** [len(s)] *)
Definition len (s : string) : nat := String.length s.

(** [s.startswith(p)] *)
Definition startswith (s p : string) : bool := String.prefix p s.

(** [s[n:]] *)
Fixpoint drop (n : nat) (s : string) : string :=
  match n, s with
  | O, _ => s
  | S _, EmptyString => EmptyString
  | S n', String _ s' => drop n' s'
  end.

(** [s[:n]] *)
Fixpoint take (n : nat) (s : string) : string :=
  match n, s with
  | O, _ => EmptyString
  | S _, EmptyString => EmptyString
  | S n', String c s' => String c (take n' s')
  end.

(** [c.isspace()] for a character below 256: TAB, LF, VT, FF, CR, the
    separators 0x1c..0x1f, space, NEL (0x85) and NBSP (0xa0). *)
Definition isspace (c : ascii) : bool :=
  let n := nat_of_ascii c in
  (((9 <=? n) && (n <=? 13)) || ((28 <=? n) && (n <=? 32))
   || (n =? 133) || (n =? 160))%nat.

(** [s.lstrip()] *)
Fixpoint lstrip (s : string) : string :=
  match s with
  | EmptyString => EmptyString
  | String c s' => if isspace c then lstrip s' else s
  end.

(** [s.rstrip()] *)
Fixpoint rstrip (s : string) : string :=
  match s with
  | EmptyString => EmptyString
  | String c s' =>
      match rstrip s' with
      | EmptyString => if isspace c then EmptyString else String c EmptyString
      | r => String c r
      end
  end.

(** [s.strip()] *)
Definition strip (s : string) : string := rstrip (lstrip s).

Definition LF : ascii := "010"%char.
Definition CR : ascii := "013"%char.
Definition ESC : ascii := "027"%char.
Definition ETX : ascii := "003"%char.

(** [s.split("\n")]: never empty, a string without a newline is one field. *)
Fixpoint split_lf (s : string) : list string :=
  match s with
  | EmptyString => [EmptyString]
  | String c s' =>
      if Ascii.eqb c LF then EmptyString :: split_lf s'
      else match split_lf s' with
           | [] => [String c EmptyString]
           | l :: ls => String c l :: ls
           end
  end.

(** ["\n".join(ls)] *)
Definition join_lf (ls : list string) : string :=
  String.concat (String LF EmptyString) ls.

(** [f.readlines()] on the text of a file: every line keeps its newline,
    the last one may lack it, the empty text has no line. *)
Fixpoint readlines (s : string) : list string :=
  match s with
  | EmptyString => []
  | String c s' =>
      if Ascii.eqb c LF then String c EmptyString :: readlines s'
      else match readlines s' with
           | [] => [String c EmptyString]
           | l :: ls => String c l :: ls
           end
  end.

(** [text.replace("\n", "\r\n")] *)
Fixpoint replace_lf_crlf (s : string) : string :=
  match s with
  | EmptyString => EmptyString
  | String c s' =>
      if Ascii.eqb c LF then String CR (String LF (replace_lf_crlf s'))
      else String c (replace_lf_crlf s')
  end.

(** [c.lower()] on the letters that matter for an ASCII needle. *)
Definition lower_char (c : ascii) : ascii :=
  let n := nat_of_ascii c in
  if ((65 <=? n) && (n <=? 90))%nat then ascii_of_nat (n + 32) else c.

Fixpoint lower (s : string) : string :=
  match s with
  | EmptyString => EmptyString
  | String c s' => String (lower_char c) (lower s')
  end.

(** [p in s] *)
Fixpoint contains (s p : string) : bool :=
  startswith s p ||
  match s with
  | EmptyString => false
  | String _ s' => contains s' p
  end.

(** [s.endswith(p)] *)
Definition endswith (s p : string) : bool :=
  (len p <=? len s)%nat && String.eqb (drop (len s - len p) s) p.

(** [str(n)] for a natural number *)
Definition str_of_nat (n : nat) : string :=
  NilZero.string_of_uint (Nat.to_uint n).

End PyStr.

Import PyStr.

(* ===================================================================== *)
(** * Templates and their metadata ([get_all_templates], lines 26-52) *)
(* ===================================================================== *)

(** A path below [TEMPLATES_DIR], as its components. *)
Definition relpath := list string.

(** The dict built at lines 45-52. *)
Record template := {
  path : relpath;              (* "path": md_file *)
  rel_path : string;           (* "rel_path": str(rel_path) *)
  title : string;
  description : string;
  extends : option string;     (* None, or the stripped annotation line *)
  is_base : bool
}.

Definition extends_marker : string := "> **Extends:**".
Definition extension_marker : string := "> This extension".

(** The local variables of the header loop. *)
Record header := {
  h_title : string;
  h_description : string;
  h_extends : option string
}.

(** Lines 40-42: [line[:80]], with ["..."] appended when [len(line) > 80]. *)
Definition truncate80 (line : string) : string :=
  take 80 line ++ (if (80 <? len line)%nat then "..." else EmptyString).

(** The test of line 39. *)
Definition is_description_line (line : string) : bool :=
  negb (String.eqb line EmptyString)
  && negb (startswith line "#") && negb (startswith line ">").

(** The loop of lines 33-43 over the lines it is given; [title] and
    [extends] are the values assigned so far, [description] is still empty
    while the loop runs since assigning it leaves the loop. *)
Fixpoint scan_header (lines : list string) (title : string)
    (extends : option string) : header :=
  match lines with
  | [] => {| h_title := title; h_description := EmptyString;
             h_extends := extends |}
  | raw :: rest =>
      let line := strip raw in
      if startswith line "# " then scan_header rest (strip (drop 2 line)) extends
      else if startswith line extends_marker then scan_header rest title (Some line)
      else if is_description_line line then
        {| h_title := title; h_description := truncate80 line;
           h_extends := extends |}
      else scan_header rest title extends
  end.

(** [Path.stem] of a file name: the name without its last suffix; a name
    whose only dot is the first or the last character has no suffix. *)
Fixpoint rfind_dot (s : string) (i : nat) (found : option nat) : option nat :=
  match s with
  | EmptyString => found
  | String c s' =>
      rfind_dot s' (S i) (if Ascii.eqb c "."%char then Some i else found)
  end.

Definition stem (name : string) : string :=
  match rfind_dot name 0 None with
  | Some i => if ((0 <? i) && (i <? len name - 1))%nat then take i name else name
  | None => name
  end.

(** [str(rel_path)]: the components joined by the separator. *)
Definition str_of_path (p : relpath) : string := String.concat "/" p.

(** [md_file.name] *)
Definition name_of (p : relpath) : string := last p EmptyString.

(** Lines 24-52 for one file: [p] is the path below the templates
    directory and [content] the text that [open(md_file, "r")] reads. *)
Definition template_of_file (p : relpath) (content : string) : template :=
  let h := scan_header (firstn 10 (readlines content)) (stem (name_of p)) None in
  {| path := p;
     rel_path := str_of_path p;
     title := h_title h;
     description := h_description h;
     extends := h_extends h;
     is_base := contains (lower (name_of p)) "base" |}.

(* ===================================================================== *)
(** * The extends-annotation filter ([merge_templates], lines 169-193) *)
(* ===================================================================== *)

(** The loop of lines 173-183; the result is [filtered_lines]. *)
Fixpoint filter_lines (lines : list string) (skip_next_empty : bool)
    : list string :=
  match lines with
  | [] => []
  | line :: rest =>
      if startswith line extends_marker || startswith line extension_marker
      then filter_lines rest true
      else if skip_next_empty && String.eqb (strip line) EmptyString
      then filter_lines rest false
      else if skip_next_empty && startswith line ">"
      then filter_lines rest skip_next_empty
      else line :: filter_lines rest false
  end.

(** Lines 169-185: split, filter, join. *)
Definition filtered_lines (content : string) : list string :=
  filter_lines (split_lf content) false.

(** The text appended at line 193 for one file. *)
Definition filtered_content (content : string) : string :=
  strip (join_lf (filtered_lines content)).

(* ===================================================================== *)
(** * Python lists, integers and [sorted] *)
(* ===================================================================== *)

(** The exceptions the program can meet. *)
Inductive exn :=
| ZeroDivisionError
| IndexError
| TermiosError          (* termios.error: standard input is not a terminal,
                           or the terminal has gone away *)
| FileNotFoundError
| IsADirectoryError
| PermissionError
| UnicodeDecodeError    (* the bytes of a file are no text *)
| OSError               (* any other failure of a read or a write *)
| KeyboardInterrupt
| SystemExit (code : Z).

(** A pure computation that may raise. *)
Definition res (A : Type) : Type := exn + A.

(** [a % n] on integers: the sign follows the divisor, as [Z.modulo] has
    it, and a zero divisor raises. *)
Definition py_mod (a n : Z) : res Z :=
  if (n =? 0)%Z then inl ZeroDivisionError else inr (a mod n)%Z.

(** The position that index [i] denotes in a list of length [n]: negative
    indices count from the end, anything else is out of range. *)
Definition py_index (n : nat) (i : Z) : option nat :=
  let z := Z.of_nat n in
  if ((0 <=? i) && (i <? z))%Z then Some (Z.to_nat i)
  else if ((- z <=? i) && (i <? 0))%Z then Some (Z.to_nat (i + z))
  else None.

(** [l[i]] *)
Definition getitem {A} (l : list A) (i : Z) : res A :=
  match py_index (List.length l) i with
  | Some k => match nth_error l k with
              | Some x => inr x
              | None => inl IndexError
              end
  | None => inl IndexError
  end.

Fixpoint list_set {A} (l : list A) (k : nat) (v : A) : list A :=
  match l, k with
  | [], _ => []
  | _ :: l', O => v :: l'
  | x :: l', S k' => x :: list_set l' k' v
  end.

(** [l[i] = v], giving the list after the assignment. *)
Definition setitem {A} (l : list A) (i : Z) (v : A) : res (list A) :=
  match py_index (List.length l) i with
  | Some k => inr (list_set l k v)
  | None => inl IndexError
  end.

(** [sorted(l, key=key)]: Python's sort is stable, and a stable sort is
    determined by the order on keys; it is written here as the insertion
    of each element before the first one whose key is not smaller. *)
Section Sorted.
Context {A K : Type} (leb : K -> K -> bool) (key : A -> K).

Fixpoint insert_sorted (x : A) (l : list A) : list A :=
  match l with
  | [] => [x]
  | y :: l' => if leb (key x) (key y) then x :: l
               else y :: insert_sorted x l'
  end.

Fixpoint sorted (l : list A) : list A :=
  match l with
  | [] => []
  | x :: l' => insert_sorted x (sorted l')
  end.

End Sorted.

(** Order on the keys [(not t["is_base"], t["rel_path"])]: tuples compare
    component by component, [False < True], strings by code points. *)
Definition bool_ltb (a b : bool) : bool := negb a && b.

Definition key_leb (k1 k2 : bool * string) : bool :=
  if Bool.eqb (fst k1) (fst k2) then String.leb (snd k1) (snd k2)
  else bool_ltb (fst k1) (fst k2).

(** The key function of line 155. *)
Definition merge_key (t : template) : bool * string :=
  (negb (is_base t), rel_path t).

(** Line 155: the order in which [merge_templates] takes the templates. *)
Definition merge_order (templates : list template) : list template :=
  sorted key_leb merge_key templates.

(** Comparison of two [Path] values: their components, as lists. *)
Fixpoint path_leb (p q : relpath) : bool :=
  match p, q with
  | [], _ => true
  | _ :: _, [] => false
  | a :: p', b :: q' =>
      if String.eqb a b then path_leb p' q' else String.ltb a b
  end.

(* ===================================================================== *)
(** * The file tree below the templates directory *)
(* ===================================================================== *)

#[warnings="-register-all"]
Inductive node :=
| File (content : exn + string)     (* the text, or the error that opening
                                      and reading the file raises:
                                      PermissionError, UnicodeDecodeError *)
| Dir (entries : option (list (string * node))). (* None: cannot be listed *)

(** [TEMPLATES_DIR.rglob("*.md")]: every path below the directory whose
    last component ends in [.md].  A directory that cannot be listed, and
    a root that is not a directory, contribute nothing; no error is raised. *)
Fixpoint rglob_md (prefix : relpath) (n : node) : list relpath :=
  match n with
  | File _ => []
  | Dir None => []
  | Dir (Some entries) =>
      (fix walk (es : list (string * node)) : list relpath :=
         match es with
         | [] => []
         | (name, child) :: es' =>
             (if endswith name ".md" then [prefix ++ [name]] else [])
             ++ rglob_md (prefix ++ [name]) child ++ walk es'
         end) entries
  end.

Fixpoint find_node (n : node) (p : relpath) : option node :=
  match p with
  | [] => Some n
  | name :: p' =>
      match n with
      | Dir (Some entries) =>
          (fix look (es : list (string * node)) : option node :=
             match es with
             | [] => None
             | (name', child) :: es' =>
                 if String.eqb name name' then find_node child p'
                 else look es'
             end) entries
      | Dir None => None
      | File _ => None
      end
  end.

(* ===================================================================== *)
(** * The world and the monad of effects *)
(* ===================================================================== *)

(** What a call of [sys.stdin.read(1)] meets: a character, an error, or
    the end of the terminal: when the terminal hangs up the read raises
    OSError and, from then on, the termios calls on it raise termios.error. *)
Inductive input :=
| Byte (c : ascii)
| Fault (e : exn)
| Hangup.

(** How a computation ends: with a value, with an exception, or never,
    blocked in a read on a terminal that has no more input. *)
Inductive outcome (A : Type) :=
| Return (a : A)
| Raise (e : exn)
| Blocked.
Arguments Return {A} a.
Arguments Raise {A} e.
Arguments Blocked {A}.

Section Program.

(** The attribute state of a terminal ([termios.tcgetattr]) and the change
    [tty.setraw] makes to it come from Python's library. *)
Variable termattrs : Type.
Variable setraw_attrs : termattrs -> termattrs.
(** [str(TEMPLATES_DIR)] and the text that [parser.print_help()] writes. *)
Variable templates_dir_name : string.
Variable parser_help : string.

Record world := {
  templates_dir : option node;        (* None: the directory does not exist *)
  tty_attrs : option termattrs;       (* None: stdin is not a terminal, or
                                         the terminal has gone away *)
  stdout : list string;               (* the texts written, oldest first *)
  stdout_fault : option (nat * exn);  (* Some (n, e): after n more writes,
                                         writing raises e *)
  output_fault : option exn;          (* the error, if any, that opening the
                                         output file for writing raises *)
  written : list (string * string)    (* files written: path and text *)
}.

Definition M (A : Type) : Type := world -> outcome A * world.

Definition ret {A} (a : A) : M A := fun w => (Return a, w).
Definition raise {A} (e : exn) : M A := fun w => (Raise e, w).
Definition blocked {A} : M A := fun w => (Blocked, w).

Definition bind {A B} (m : M A) (k : A -> M B) : M B :=
  fun w =>
    match m w with
    | (Return a, w') => k a w'
    | (Raise e, w') => (Raise e, w')
    | (Blocked, w') => (Blocked, w')
    end.

Notation "x <- m ;; k" := (bind m (fun x => k))
  (at level 61, m at next level, right associativity).
Notation "m ;; k" := (bind m (fun _ => k))
  (at level 61, right associativity).

Definition lift {A} (r : res A) : M A :=
  match r with
  | inl e => raise e
  | inr a => ret a
  end.

(** [try: body finally: fin]: [fin] runs when [body] returns or raises,
    and an exception of [fin] replaces the outcome of [body]. *)
Definition try_finally {A} (body : M A) (fin : M unit) : M A :=
  fun w =>
    match body w with
    | (Blocked, w') => (Blocked, w')
    | (o, w') =>
        match fin w' with
        | (Return _, w'') => (o, w'')
        | (Raise e, w'') => (Raise e, w'')
        | (Blocked, w'') => (Blocked, w'')
        end
    end.

Fixpoint for_each {A} (l : list A) (body : A -> M unit) : M unit :=
  match l with
  | [] => ret tt
  | x :: l' => body x ;; for_each l' body
  end.

Fixpoint map_m {A B} (f : A -> M B) (l : list A) : M (list B) :=
  match l with
  | [] => ret []
  | x :: l' => y <- f x ;; ys <- map_m f l' ;; ret (y :: ys)
  end.

(** [sys.stdout.write(text)] *)
Definition stdout_write (text : string) : M unit :=
  fun w =>
    match stdout_fault w with
    | Some (O, e) => (Raise e, w)
    | fault =>
        (Return tt,
         {| templates_dir := templates_dir w;
            tty_attrs := tty_attrs w;
            stdout := stdout w ++ [text];
            stdout_fault := match fault with
                            | Some (S n, e) => Some (n, e)
                            | f => f
                            end;
            output_fault := output_fault w;
            written := written w |})
    end.

(** [print(text)] *)
Definition print (text : string) : M unit :=
  stdout_write (text ++ String LF EmptyString).

(** [termios.tcgetattr(fd)] *)
Definition tcgetattr : M termattrs :=
  fun w =>
    match tty_attrs w with
    | Some a => (Return a, w)
    | None => (Raise TermiosError, w)
    end.

Definition set_tty (a : termattrs) (w : world) : world :=
  {| templates_dir := templates_dir w;
     tty_attrs := Some a;
     stdout := stdout w;
     stdout_fault := stdout_fault w;
     output_fault := output_fault w;
     written := written w |}.

(** [termios.tcsetattr(fd, termios.TCSADRAIN, attrs)] *)
Definition tcsetattr (a : termattrs) : M unit :=
  fun w =>
    match tty_attrs w with
    | Some _ => (Return tt, set_tty a w)
    | None => (Raise TermiosError, w)
    end.

(** [tty.setraw(fd)] *)
Definition setraw : M unit :=
  a <- tcgetattr ;; tcsetattr (setraw_attrs a).

Definition lose_tty (w : world) : world :=
  {| templates_dir := templates_dir w;
     tty_attrs := None;
     stdout := stdout w;
     stdout_fault := stdout_fault w;
     output_fault := output_fault w;
     written := written w |}.

(** [sys.stdin.read(1)] on a terminal that hangs up: the read raises, and
    the terminal is gone. *)
Definition hangup {A} : M A := fun w => (Raise OSError, lose_tty w).

(** [open(md_file, "r")] followed by reading the whole text. *)
Definition open_read (p : relpath) : M string :=
  fun w =>
    match templates_dir w with
    | None => (Raise FileNotFoundError, w)
    | Some root =>
        match find_node root p with
        | Some (File (inr text)) => (Return text, w)
        | Some (File (inl e)) => (Raise e, w)
        | Some (Dir (Some _)) => (Raise IsADirectoryError, w)
        | Some (Dir None) => (Raise PermissionError, w)
        | None => (Raise FileNotFoundError, w)
        end
    end.

(** [open(output_path, "w")] followed by [f.write(text)].  The write is
    recorded in [written]; where the path leads is not resolved, and
    [templates_dir] stays the tree as the scan and the reads of this run
    found it, also when the output path lies inside that tree. *)
Definition open_write (output_path text : string) : M unit :=
  fun w =>
    match output_fault w with
    | Some e => (Raise e, w)
    | None =>
        (Return tt,
         {| templates_dir := templates_dir w;
            tty_attrs := tty_attrs w;
            stdout := stdout w;
            stdout_fault := stdout_fault w;
            output_fault := output_fault w;
            written := written w ++ [(output_path, text)] |})
    end.

(* ===================================================================== *)
(** * [get_all_templates] and [list_templates] *)
(* ===================================================================== *)

(** Line 23: the paths the loop visits. *)
Definition template_paths (w : world) : list relpath :=
  match templates_dir w with
  | None => []
  | Some root => sorted path_leb (fun p => p) (rglob_md [] root)
  end.

Definition get_all_templates : M (list template) :=
  fun w =>
    map_m (fun md_file =>
             content <- open_read md_file ;;
             ret (template_of_file md_file content))
          (template_paths w) w.

Fixpoint str_mul (s : string) (n : nat) : string :=
  match n with
  | O => EmptyString
  | S n' => s ++ str_mul s n'
  end.

Definition nl : string := String LF EmptyString.

Definition base_marker (t : template) : string :=
  if is_base t then " [BASE]" else EmptyString.

Definition list_templates : M unit :=
  templates <- get_all_templates ;;
  print (nl ++ "Available Templates:") ;;
  print (str_mul "=" 60) ;;
  for_each templates (fun t =>
    print (nl ++ "  " ++ rel_path t ++ base_marker t) ;;
    print ("    Title: " ++ title t) ;;
    (if negb (String.eqb (description t) EmptyString)
     then print ("    " ++ description t) else ret tt) ;;
    match extends t with
    | Some e => if negb (String.eqb e EmptyString)
                then print ("    " ++ e) else ret tt
    | None => ret tt
    end) ;;
  print (nl ++ str_mul "=" 60) ;;
  print ("Total: " ++ str_of_nat (List.length templates) ++ " template(s)" ++ nl).

(* ===================================================================== *)
(** * [interactive_select] *)
(* ===================================================================== *)

(** The nested function [write]: newlines become CR LF, then a flush. *)
Definition write (text : string) : M unit :=
  stdout_write (replace_lf_crlf text).

Definition clear_screen : string := String ESC "[2J" ++ String ESC "[H".

(** [sum(selected)] *)
Definition count_selected (selected : list bool) : nat :=
  List.length (filter (fun b => b) selected).

(** The loop of lines 92-97, from index [i] on. *)
Fixpoint render_items (ts : list template) (i : Z) (current : Z)
    (selected : list bool) : M unit :=
  match ts with
  | [] => ret tt
  | t :: ts' =>
      let cursor := if (i =? current)%Z then ">" else " " in
      b <- lift (getitem selected i) ;;
      let check := if b then "[x]" else "[ ]" in
      write (" " ++ cursor ++ " " ++ check ++ " " ++ rel_path t
             ++ base_marker t ++ nl) ;;
      write ("       " ++ title t ++ nl) ;;
      render_items ts' (i + 1)%Z current selected
  end.

(** The nested function [render] (lines 87-100). *)
Definition render (templates : list template) (current : Z)
    (selected : list bool) : M unit :=
  write clear_screen ;;
  write ("Select templates to merge (SPACE to toggle, ENTER to confirm, q to quit):"
         ++ nl ++ nl) ;;
  render_items templates 0%Z current selected ;;
  write (nl ++ str_of_nat (count_selected selected) ++ " template(s) selected").

(** Lines 123 and 127, lines 125 and 129, line 131. *)
Definition cursor_up (n : nat) (current : Z) : res Z :=
  py_mod (current - 1) (Z.of_nat n).

Definition cursor_down (n : nat) (current : Z) : res Z :=
  py_mod (current + 1) (Z.of_nat n).

Definition toggle (selected : list bool) (current : Z) : res (list bool) :=
  match getitem selected current with
  | inl e => inl e
  | inr b => setitem selected current (negb b)
  end.

(** How the [while True] loop is left: by [break] with the flags, or by
    the [return []] of line 137. *)
Inductive loop_exit :=
| Break (selected : list bool)
| ReturnEmpty.

(** The loop of lines 112-137, reading from [inp]. *)
Fixpoint loop (templates : list template) (inp : list input) (current : Z)
    (selected : list bool) {struct inp} : M loop_exit :=
  let n := List.length templates in
  render templates current selected ;;
  match inp with
  | [] => blocked
  | Fault e :: _ => raise e
  | Hangup :: _ => hangup
  | Byte ch :: rest =>
      if Ascii.eqb ch ESC then
        match rest with
        | [] => blocked
        | Fault e :: _ => raise e
        | Hangup :: _ => hangup
        | Byte ch2 :: rest2 =>
            if Ascii.eqb ch2 "["%char then
              match rest2 with
              | [] => blocked
              | Fault e :: _ => raise e
              | Hangup :: _ => hangup
              | Byte ch3 :: rest3 =>
                  if Ascii.eqb ch3 "A"%char then
                    c <- lift (cursor_up n current) ;;
                    loop templates rest3 c selected
                  else if Ascii.eqb ch3 "B"%char then
                    c <- lift (cursor_down n current) ;;
                    loop templates rest3 c selected
                  else loop templates rest3 current selected
              end
            else loop templates rest2 current selected
        end
      else if Ascii.eqb ch "k"%char then
        c <- lift (cursor_up n current) ;;
        loop templates rest c selected
      else if Ascii.eqb ch "j"%char then
        c <- lift (cursor_down n current) ;;
        loop templates rest c selected
      else if Ascii.eqb ch " "%char then
        s <- lift (toggle selected current) ;;
        loop templates rest current s
      else if Ascii.eqb ch CR || Ascii.eqb ch LF then
        ret (Break selected)
      else if Ascii.eqb ch "q"%char || Ascii.eqb ch ETX then
        write clear_screen ;;
        write ("Cancelled." ++ nl) ;;
        ret ReturnEmpty
      else loop templates rest current selected
  end.

(** Line 145: [[t for i, t in enumerate(templates) if selected[i]]], from
    index [i] on. *)
Fixpoint select_items (templates : list template) (i : Z)
    (selected : list bool) : res (list template) :=
  match templates with
  | [] => inr []
  | t :: ts =>
      match getitem selected i with
      | inl e => inl e
      | inr b =>
          match select_items ts (i + 1)%Z selected with
          | inl e => inl e
          | inr r => inr (if b then t :: r else r)
          end
      end
  end.

Definition interactive_select (templates : list template)
    (inp : list input) : M (list template) :=
  let selected := repeat false (List.length templates) in
  let current := 0%Z in
  old_settings <- tcgetattr ;;
  r <- try_finally
         (setraw ;; loop templates inp current selected)
         (tcsetattr old_settings) ;;
  match r with
  | ReturnEmpty => ret []
  | Break selected =>
      stdout_write clear_screen ;;
      lift (select_items templates 0%Z selected)
  end.

(* ===================================================================== *)
(** * [merge_templates] and [main] *)
(* ===================================================================== *)

(** The loop of lines 164-193, from index [i] on. *)
Fixpoint merge_bodies (templates : list template) (i : nat)
    (merged_content : list string) : M (list string) :=
  match templates with
  | [] => ret merged_content
  | t :: ts =>
      content <- open_read (path t) ;;
      let content := join_lf (filtered_lines content) in
      let merged_content :=
        if (0 <? i)%nat
        then merged_content ++ [EmptyString; "---"; EmptyString]
        else merged_content in
      merge_bodies ts (S i) (merged_content ++ [strip content])
  end.

Definition merge_templates (templates : list template)
    (output_path : string) : M unit :=
  match templates with
  | [] => print "No templates selected."
  | _ =>
      let templates := merge_order templates in
      let merged_content :=
        ["# CLAUDE.md"; EmptyString;
         "<!-- Generated by prompt-merge.py -->";
         ("<!-- Sources: " ++ String.concat ", " (map rel_path templates)
           ++ " -->")%string;
         EmptyString] in
      merged_content <- merge_bodies templates 0 merged_content ;;
      let merged_content := merged_content ++ [EmptyString] in
      let output := join_lf merged_content in
      open_write output_path output ;;
      print ("Merged " ++ str_of_nat (List.length templates)
             ++ " template(s) into " ++ output_path) ;;
      print (nl ++ "Included templates:") ;;
      for_each templates (fun t => print ("  - " ++ rel_path t))
  end.

(** The result of [parser.parse_args()]. *)
Record args := {
  list_flag : bool;           (* args.list *)
  command : option string;    (* args.command: None or "go" *)
  output : string             (* args.output *)
}.

Definition main (a : args) (inp : list input) : M unit :=
  if list_flag a then list_templates
  else
    match command a with
    | Some "go" =>
        templates <- get_all_templates ;;
        match templates with
        | [] =>
            print ("No templates found in " ++ templates_dir_name) ;;
            raise (SystemExit 1)
        | _ =>
            selected <- interactive_select templates inp ;;
            match selected with
            | [] => ret tt
            | _ => merge_templates selected (output a)
            end
        end
    | _ => stdout_write parser_help
    end.

(** The status the process ends with: 0 when [main] returns, the code of
    [sys.exit], 130 for an uncaught KeyboardInterrupt (the interpreter ends
    by the interrupt signal), and 1 for any other uncaught exception. *)
Definition exit_status (o : outcome unit) : option Z :=
  match o with
  | Return _ => Some 0%Z
  | Raise (SystemExit code) => Some code
  | Raise KeyboardInterrupt => Some 130%Z
  | Raise _ => Some 1%Z
  | Blocked => None
  end.

End Program.

Arguments world termattrs : clear implicits.
Arguments M termattrs A : clear implicits.
Arguments ret {termattrs A} a w.
Arguments raise {termattrs A} e w.
Arguments blocked {termattrs A} w.
Arguments bind {termattrs A B} m k w.
Arguments lift {termattrs A} r w.
Arguments try_finally {termattrs A} body fin w.
Arguments stdout_write {termattrs} text w.
Arguments write {termattrs} text w.
Arguments print {termattrs} text w.
Arguments tcgetattr {termattrs} w.
Arguments tcsetattr {termattrs} a w.
Arguments setraw {termattrs} setraw_attrs w.
Arguments set_tty {termattrs} a w.
Arguments lose_tty {termattrs} w.
Arguments hangup {termattrs A} w.
Arguments open_read {termattrs} p w.
Arguments template_paths {termattrs} w.
Arguments get_all_templates {termattrs} w.
Arguments render_items {termattrs} ts i current selected w.
Arguments render {termattrs} templates current selected w.
Arguments loop {termattrs} templates inp current selected w.
Arguments interactive_select {termattrs} setraw_attrs templates inp w.
Arguments merge_templates {termattrs} templates output_path w.
Arguments main {termattrs} setraw_attrs templates_dir_name parser_help a inp w.
Arguments templates_dir {termattrs} w.
Arguments tty_attrs {termattrs} w.
Arguments stdout {termattrs} w.
Arguments stdout_fault {termattrs} w.
Arguments output_fault {termattrs} w.
Arguments written {termattrs} w.
Arguments Build_world {termattrs}.

(* ===================================================================== *)
(** * Key events *)
(* ===================================================================== *)

(** The events that keep the loop running, as the loop tells them apart
    by the bytes it reads for each. *)
Inductive key :=
| ArrowUp                (* ESC [ A *)
| ArrowDown              (* ESC [ B *)
| VimUp                  (* k *)
| VimDown                (* j *)
| Space
| Escape2 (c : ascii)    (* ESC and a byte other than [ *)
| Escape3 (c : ascii)    (* ESC [ and a byte other than A and B *)
| Other (c : ascii).     (* a byte outside the recognized alphabet *)

(** The bytes the loop tests a first character against. *)
Definition recognized (c : ascii) : bool :=
  Ascii.eqb c ESC || Ascii.eqb c "k"%char || Ascii.eqb c "j"%char
  || Ascii.eqb c " "%char || Ascii.eqb c CR || Ascii.eqb c LF
  || Ascii.eqb c "q"%char || Ascii.eqb c ETX.

Definition key_ok (k : key) : bool :=
  match k with
  | Escape2 c => negb (Ascii.eqb c "["%char)
  | Escape3 c => negb (Ascii.eqb c "A"%char) && negb (Ascii.eqb c "B"%char)
  | Other c => negb (recognized c)
  | _ => true
  end.

Definition bytes_of_key (k : key) : list ascii :=
  match k with
  | ArrowUp => [ESC; "["; "A"]%char
  | ArrowDown => [ESC; "["; "B"]%char
  | VimUp => ["k"]%char
  | VimDown => ["j"]%char
  | Space => [" "]%char
  | Escape2 c => [ESC; c]
  | Escape3 c => [ESC; "["%char; c]
  | Other c => [c]
  end.

(** The input that a sequence of key events is. *)
Definition keystrokes (ks : list key) : list input :=
  map Byte (flat_map bytes_of_key ks).

(** The cursor and the flags: the variables [current] and [selected]. *)
Definition selection : Type := Z * list bool.

(** What one iteration of the loop does to [current] and [selected] on
    the bytes of a key event, with [n = len(templates)]. *)
Definition step (n : nat) (k : key) (st : selection) : res selection :=
  let (current, selected) := st in
  match k with
  | ArrowUp | VimUp =>
      match cursor_up n current with
      | inl e => inl e
      | inr c => inr (c, selected)
      end
  | ArrowDown | VimDown =>
      match cursor_down n current with
      | inl e => inl e
      | inr c => inr (c, selected)
      end
  | Space =>
      match toggle selected current with
      | inl e => inl e
      | inr s => inr (current, s)
      end
  | Escape2 _ | Escape3 _ | Other _ => inr st
  end.

Fixpoint run_keys (n : nat) (ks : list key) (st : selection) : res selection :=
  match ks with
  | [] => inr st
  | k :: ks' =>
      match step n k st with
      | inl e => inl e
      | inr st' => run_keys n ks' st'
      end
  end.

(** The cursor positions at which the Space events of [ks] arrive. *)
Fixpoint toggled (n : nat) (ks : list key) (st : selection) : list Z :=
  match ks with
  | [] => []
  | k :: ks' =>
      match step n k st with
      | inl _ => []
      | inr st' =>
          match k with
          | Space => fst st :: toggled n ks' st'
          | _ => toggled n ks' st'
          end
      end
  end.

(** The items whose flag in [selected] is true, in the order of the list. *)
Definition items_selected (ts : list template) (selected : list bool)
    : list template :=
  map fst (filter snd (combine ts selected)).

Notation "x <- m ;; k" := (bind m (fun x => k))
  (at level 61, m at next level, right associativity).
Notation "m ;; k" := (bind m (fun _ => k))
  (at level 61, right associativity).

(* ===================================================================== *)
(** * Vocabulary of the properties *)
(* ===================================================================== *)

(** The order a key function and a comparison of keys put on elements. *)
Definition le_by {A K : Type} (leb : K -> K -> bool) (key : A -> K)
    (x y : A) : Prop :=
  leb (key x) (key y) = true.

(** The content of the filtering example: an annotation block of two
    lines, an empty line, and one line of body. *)
Definition annotated_example : string :=
  "> **Extends:** base.md" ++ nl ++ "> This extension adds X." ++ nl
  ++ nl ++ "Body text".

(** A line that starts with neither marker of an annotation block. *)
Definition annotation_free (line : string) : Prop :=
  startswith line extends_marker = false
  /\ startswith line extension_marker = false.

(** The cursor is a valid index and there is one flag per template. *)
Definition valid (n : nat) (st : selection) : Prop :=
  (0 <= fst st < Z.of_nat n)%Z /\ List.length (snd st) = n.

Section Vocabulary.
Context {termattrs : Type}.
Implicit Types (w : world termattrs).

(** Everything but the standard output is the same in both worlds. *)
Definition frame w w' : Prop :=
  templates_dir w' = templates_dir w /\ tty_attrs w' = tty_attrs w
  /\ output_fault w' = output_fault w /\ written w' = written w.

(** No write to the standard output is going to fail. *)
Definition calm w : Prop := stdout_fault w = None.

(** A computation that touches the standard output only. *)
Definition preserves {A} (m : M termattrs A) : Prop :=
  forall w, frame w (snd (m w)).

(** A computation that, when no write fails, returns [a]. *)
Definition succeeds {A} (m : M termattrs A) (a : A) : Prop :=
  forall w, calm w -> exists w', m w = (Return a, w') /\ frame w w' /\ calm w'.

End Vocabulary.

(** A terminal with two attribute states, cooked ([false]) and raw. *)
Definition to_raw (_ : bool) : bool := true.

(** A world without a templates directory, with a cooked terminal. *)
Definition bare_world : world bool :=
  {| templates_dir := None;
     tty_attrs := Some false;
     stdout := [];
     stdout_fault := None;
     output_fault := None;
     written := [] |}.

Definition item (name : string) : template :=
  template_of_file [name] EmptyString.

Definition three_items : list template :=
  [item "a.md"; item "base.md"; item "c.md"].

(** A templates directory with a base template and an extension of it. *)
Definition small_tree : node :=
  Dir (Some
    [("ext.md",
      File (inr ("# Ext" ++ nl ++ "> **Extends:** base.md" ++ nl
                  ++ "> This extension adds X." ++ nl ++ nl
                  ++ "Ext body" ++ nl)%string));
     ("base.md", File (inr ("# Base" ++ nl ++ nl ++ "Base body" ++ nl)%string))]).

Definition small_world : world bool :=
  {| templates_dir := Some small_tree;
     tty_attrs := Some false;
     stdout := [];
     stdout_fault := None;
     output_fault := None;
     written := [] |}.

(** The texts of the two files of the small tree and their templates. *)
Definition base_text : string := "# Base" ++ nl ++ nl ++ "Base body" ++ nl.

Definition ext_text : string :=
  "# Ext" ++ nl ++ "> **Extends:** base.md" ++ nl
  ++ "> This extension adds X." ++ nl ++ nl ++ "Ext body" ++ nl.

Definition base_item : template := template_of_file ["base.md"] base_text.
Definition ext_item : template := template_of_file ["ext.md"] ext_text.

(** The small world, with an output file that cannot be opened. *)
Definition readonly_world : world bool :=
  {| templates_dir := Some small_tree;
     tty_attrs := Some false;
     stdout := [];
     stdout_fault := None;
     output_fault := Some PermissionError;
     written := [] |}.

(** A templates directory in which a directory is named like a template. *)
Definition odd_world : world bool :=
  {| templates_dir :=
       Some (Dir (Some [("a.md", File (inr "text"));
                        ("b.md", Dir (Some []))]));
     tty_attrs := Some false;
     stdout := [];
     stdout_fault := None;
     output_fault := None;
     written := [] |}.

(** A text in which every line feed follows a carriage return, as a
    terminal in raw mode needs it. *)
Fixpoint crlf_only_from (after_cr : bool) (s : string) : bool :=
  match s with
  | EmptyString => true
  | String c s' =>
      (negb (Ascii.eqb c LF) || after_cr)
      && crlf_only_from (Ascii.eqb c CR) s'
  end.

Definition crlf_only (s : string) : bool := crlf_only_from false s.

(** The lines of the merged document between its head and its last empty
    line: the bodies, with an empty line, a rule and an empty line between
    two of them. *)
Definition separated (bodies : list string) : list string :=
  match bodies with
  | [] => []
  | b :: rest =>
      b :: flat_map (fun b' => [EmptyString; "---"; EmptyString; b']) rest
  end.

(** The first lines of the merged document, for the templates in the
    order they are merged in. *)
Definition merged_head (templates : list template) : list string :=
  ["# CLAUDE.md"; EmptyString;
   "<!-- Generated by prompt-merge.py -->";
   ("<!-- Sources: " ++ String.concat ", " (map rel_path templates)
    ++ " -->")%string;
   EmptyString].

(** The lines [merge_templates] prints after writing the file. *)
Definition merge_report (templates : list template) (output_path : string)
    : list string :=
  [("Merged " ++ str_of_nat (List.length templates)
    ++ " template(s) into " ++ output_path ++ nl)%string;
   (nl ++ "Included templates:" ++ nl)%string]
  ++ map (fun t => ("  - " ++ rel_path t ++ nl)%string) templates.

(** The lines [list_templates] prints for one template. *)
Definition listing_of (t : template) : list string :=
  [(nl ++ "  " ++ rel_path t ++ base_marker t ++ nl)%string;
   ("    Title: " ++ title t ++ nl)%string]
  ++ (if String.eqb (description t) EmptyString then []
      else [("    " ++ description t ++ nl)%string])
  ++ match extends t with
     | Some e => if String.eqb e EmptyString then []
                 else [("    " ++ e ++ nl)%string]
     | None => []
     end.

(** The texts [render] writes for the items from index [i] on. *)
Fixpoint rendered_items (ts : list template) (i : nat) (current : Z)
    (selected : list bool) : list string :=
  match ts with
  | [] => []
  | t :: ts' =>
      replace_lf_crlf
        (" " ++ (if (Z.of_nat i =? current)%Z then ">" else " ") ++ " "
         ++ (if nth i selected false then "[x]" else "[ ]") ++ " "
         ++ rel_path t ++ base_marker t ++ nl)
      :: replace_lf_crlf ("       " ++ title t ++ nl)
      :: rendered_items ts' (S i) current selected
  end.

(** The texts one call of [render] writes. *)
Definition rendered (ts : list template) (current : Z)
    (selected : list bool) : list string :=
  [replace_lf_crlf clear_screen;
   replace_lf_crlf
     ("Select templates to merge (SPACE to toggle, ENTER to confirm, q to quit):"
      ++ nl ++ nl)]
  ++ rendered_items ts 0 current selected
  ++ [replace_lf_crlf
        (nl ++ str_of_nat (count_selected selected) ++ " template(s) selected")].

(** [kept_from l l']: the list [l] is what is left of [l'] when some of
    its elements are dropped, the others staying in their order. *)
Inductive kept_from {A : Type} : list A -> list A -> Prop :=
| kept_nil : kept_from [] []
| kept_drop (x : A) (l l' : list A) : kept_from l l' -> kept_from l (x :: l')
| kept_keep (x : A) (l l' : list A) :
    kept_from l l' -> kept_from (x :: l) (x :: l').

Section VocabularyOfEffects.
Context {termattrs : Type}.
Implicit Types (w : world termattrs).

(** The world after the texts [outs] have been written to the standard
    output. *)
Definition emit (outs : list string) w : world termattrs :=
  {| templates_dir := templates_dir w;
     tty_attrs := tty_attrs w;
     stdout := stdout w ++ outs;
     stdout_fault := stdout_fault w;
     output_fault := output_fault w;
     written := written w |}.

(** A computation that, when no write fails, returns [a] after writing
    the texts [outs] to the standard output and doing nothing else. *)
Definition writes {A} (m : M termattrs A) (a : A) (outs : list string)
    : Prop :=
  forall w, calm w -> m w = (Return a, emit outs w).

(** Both worlds hold the same files: the same templates directory and the
    same output files written so far. *)
Definition same_files w w' : Prop :=
  templates_dir w' = templates_dir w /\ output_fault w' = output_fault w
  /\ written w' = written w.

(** A computation that touches the standard output only, unless [lost]
    holds and it raises after the terminal has gone away, the files being
    the same in that case too. *)
Definition survives_if {A} (lost : Prop) (m : M termattrs A) : Prop :=
  forall w,
    frame w (snd (m w))
    \/ (lost /\ same_files w (snd (m w)) /\ tty_attrs (snd (m w)) = None
        /\ exists e, fst (m w) = Raise e).

(** The text that reading the file of a template gives. *)
Definition readable w (t : template) (content : string) : Prop :=
  open_read (path t) w = (Return content, w).

End VocabularyOfEffects.

(* ===================================================================== *)
(** * Properties of the extends-annotation filter *)
(* ===================================================================== *)

(** C5: filtering the four lines "> **Extends:** base.md",
    "> This extension adds X.", an empty line and "Body text" and trimming
    the result
    gives exactly "Body text"; the filter alone leaves the single line
    "Body text". *)
Theorem filtered_content_example :
  split_lf annotated_example
    = ["> **Extends:** base.md"; "> This extension adds X."; EmptyString;
       "Body text"]
  /\ filtered_lines annotated_example = ["Body text"]
  /\ filtered_content annotated_example = "Body text".
Proof. repeat split; vm_compute; reflexivity. Qed.

Lemma filter_lines_no_marker (lines : list string) :
  Forall annotation_free lines -> filter_lines lines false = lines.
Proof.
  induction 1 as [| line rest [Hext Hthis] _ IH]; simpl.
  - reflexivity.
  - rewrite Hext, Hthis. simpl. now rewrite IH.
Qed.

(** C10: on a content none of whose lines starts with "> **Extends:**" or
    with "> This extension", the filtered line sequence is the line
    sequence of the content. *)
Theorem filtered_lines_identity (content : string) :
  Forall annotation_free (split_lf content) ->
  filtered_lines content = split_lf content.
Proof. apply filter_lines_no_marker. Qed.

Lemma filtered_lines_identity_witness :
  Forall annotation_free (split_lf ("# Title" ++ nl ++ "> a quote" ++ nl ++ "text"))
  /\ filtered_lines ("# Title" ++ nl ++ "> a quote" ++ nl ++ "text")
     = ["# Title"; "> a quote"; "text"].
Proof.
  assert (H : Forall annotation_free
                (split_lf ("# Title" ++ nl ++ "> a quote" ++ nl ++ "text"))).
  { vm_compute. repeat constructor. }
  split; [exact H |].
  rewrite (filtered_lines_identity _ H). reflexivity.
Defined.

(* ===================================================================== *)
(** * Properties of the header scan *)
(* ===================================================================== *)

Lemma len_take (n : nat) (s : string) : len (take n s) = Nat.min n (len s).
Proof.
  revert s; induction n as [| n IH]; intros [| c s]; simpl; auto.
Qed.

Lemma take_all (n : nat) (s : string) : (len s <= n)%nat -> take n s = s.
Proof.
  revert s; induction n as [| n IH]; intros [| c s]; simpl; intros H;
    try reflexivity; try lia.
  f_equal. apply IH. lia.
Qed.

Lemma string_app_empty (s : string) : (s ++ EmptyString)%string = s.
Proof. induction s; simpl; congruence. Qed.

(** A stored description is the line itself up to 80 characters, and the
    first 80 characters followed by three dots beyond. *)
Lemma truncate80_spec (line : string) :
  ((len line <= 80)%nat -> truncate80 line = line)
  /\ ((80 < len line)%nat ->
      truncate80 line = (take 80 line ++ "...")%string
      /\ len (take 80 line) = 80%nat).
Proof.
  unfold truncate80. split; intros H.
  - destruct (Nat.ltb_spec 80 (len line)); [lia |].
    rewrite take_all by assumption. apply string_app_empty.
  - destruct (Nat.ltb_spec 80 (len line)); [| lia].
    split; [reflexivity |]. rewrite len_take. lia.
Qed.

(** Lines that are not description lines only update the title and the
    annotation; the scan goes on behind them. *)
Lemma scan_header_app (pre rest : list string) (title : string)
    (ext : option string) :
  Forall (fun raw => is_description_line (strip raw) = false) pre ->
  scan_header (pre ++ rest) title ext
  = scan_header rest (h_title (scan_header pre title ext))
                     (h_extends (scan_header pre title ext)).
Proof.
  intros Hpre. revert title ext.
  induction Hpre as [| raw pre Hraw _ IH]; intros title ext; simpl.
  - reflexivity.
  - rewrite Hraw.
    destruct (startswith (strip raw) "# ").
    + apply IH.
    + destruct (startswith (strip raw) extends_marker); apply IH.
Qed.

Lemma scan_header_no_description (lines : list string) (title : string)
    (ext : option string) :
  Forall (fun raw => is_description_line (strip raw) = false) lines ->
  h_description (scan_header lines title ext) = EmptyString.
Proof.
  intros H. revert title ext.
  induction H as [| raw rest Hraw _ IH]; intros title ext; simpl; auto.
  rewrite Hraw.
  destruct (startswith (strip raw) "# "); [apply IH |].
  destruct (startswith (strip raw) extends_marker); apply IH.
Qed.

Lemma startswith_app (p q s : string) :
  startswith s (p ++ q) = true -> startswith s p = true.
Proof.
  unfold startswith. revert s.
  induction p as [| a p IH]; intros [| c s]; cbn [append String.prefix];
    try reflexivity; try discriminate.
  destruct (Ascii.ascii_dec a c); [apply IH | discriminate].
Qed.

Lemma description_line_branch (line : string) :
  is_description_line line = true ->
  startswith line "# " = false /\ startswith line extends_marker = false.
Proof.
  unfold is_description_line. intros H.
  apply andb_prop in H as [H Hquote]. apply andb_prop in H as [_ Hhash].
  apply negb_true_iff in Hquote, Hhash.
  split.
  - destruct (startswith line "# ") eqn:E; [| reflexivity].
    apply (startswith_app "#" " ") in E. congruence.
  - destruct (startswith line extends_marker) eqn:E; [| reflexivity].
    apply (startswith_app ">" " **Extends:**") in E. congruence.
Qed.

(** C8: the description stored for a file comes from the first of its
    first 10 lines that, once stripped, is non-empty and starts neither
    with '#' nor with '>'; it is that line cut to 80 characters, with
    "..." appended when the line is longer than 80; the scan stops there,
    so the title and the annotation are those found before that line.
    Without such a line the description stays empty. *)
Theorem description_from_first_content_line (p : relpath) (content : string) :
  (forall pre raw post,
      firstn 10 (readlines content) = pre ++ raw :: post ->
      Forall (fun r => is_description_line (strip r) = false) pre ->
      is_description_line (strip raw) = true ->
      let h := scan_header pre (stem (name_of p)) None in
      description (template_of_file p content) = truncate80 (strip raw)
      /\ description (template_of_file p content)
         = (take 80 (strip raw)
            ++ (if (80 <? len (strip raw))%nat then "..." else EmptyString))%string
      /\ (len (take 80 (strip raw)) <= 80)%nat
      /\ title (template_of_file p content) = h_title h
      /\ extends (template_of_file p content) = h_extends h)
  /\ (Forall (fun r => is_description_line (strip r) = false)
             (firstn 10 (readlines content)) ->
      description (template_of_file p content) = EmptyString).
Proof.
  split.
  - intros pre raw post Hlines Hpre Hraw h.
    unfold template_of_file; cbn [description title extends].
    rewrite Hlines, (scan_header_app _ _ _ _ Hpre).
    cbn [scan_header].
    destruct (description_line_branch _ Hraw) as [-> ->].
    rewrite Hraw. cbn [h_title h_description h_extends].
    repeat split; try reflexivity.
    rewrite len_take. lia.
  - intros H. unfold template_of_file; cbn [description].
    now apply scan_header_no_description.
Qed.

Lemma description_from_first_content_line_witness :
  description
    (template_of_file ["java"; "base.md"]
       ("# Java base" ++ nl ++ nl ++ "Rules for Java code." ++ nl ++ "More."))
  = "Rules for Java code.".
Proof.
  pose proof (proj1 (description_from_first_content_line ["java"; "base.md"]
    ("# Java base" ++ nl ++ nl ++ "Rules for Java code." ++ nl ++ "More."))
    ["# Java base" ++ nl; nl]%string ("Rules for Java code." ++ nl)%string
    ["More."] eq_refl) as H.
  simpl in H.
  destruct H as [H _].
  - repeat constructor.
  - reflexivity.
  - exact H.
Defined.

(** A line of 81 characters is stored as its first 80 followed by the
    three dots: 83 characters in all. *)
Example description_of_long_line :
  let line := str_mul "abcdefghi" 9 in
  len line = 81%nat
  /\ description (template_of_file ["a.md"] line)
     = (str_mul "abcdefghi" 8 ++ "abcdefgh" ++ "...")%string
  /\ len (description (template_of_file ["a.md"] line)) = 83%nat.
Proof. repeat split; vm_compute; reflexivity. Qed.

(* ===================================================================== *)
(** * Properties of the merge order *)
(* ===================================================================== *)

Lemma string_compare_refl (s : string) : String.compare s s = Eq.
Proof.
  induction s as [| a s IH]; simpl; [reflexivity |].
  unfold Ascii.compare. now rewrite N.compare_refl.
Qed.

Lemma string_compare_lt_trans (s1 s2 s3 : string) :
  String.compare s1 s2 = Lt -> String.compare s2 s3 = Lt ->
  String.compare s1 s3 = Lt.
Proof.
  revert s2 s3.
  induction s1 as [| a s1 IH]; intros [| b s2] [| c s3]; simpl;
    try discriminate; try reflexivity.
  destruct (Ascii.compare a b) eqn:Hab; try discriminate;
    destruct (Ascii.compare b c) eqn:Hbc; try discriminate; intros H12 H23.
  - apply Ascii.compare_eq_iff in Hab, Hbc. subst.
    unfold Ascii.compare. rewrite N.compare_refl. eauto.
  - apply Ascii.compare_eq_iff in Hab. subst. now rewrite Hbc.
  - apply Ascii.compare_eq_iff in Hbc. subst. now rewrite Hab.
  - unfold Ascii.compare in *.
    rewrite N.compare_lt_iff in Hab, Hbc.
    assert (Hac : (N_of_ascii a < N_of_ascii c)%N) by lia.
    apply N.compare_lt_iff in Hac. now rewrite Hac.
Qed.

Lemma string_leb_cases (s1 s2 : string) :
  String.leb s1 s2 = true <-> String.compare s1 s2 = Lt \/ s1 = s2.
Proof.
  unfold String.leb. split.
  - destruct (String.compare s1 s2) eqn:E; try discriminate; intros _.
    + right. now apply String.compare_eq_iff.
    + now left.
  - intros [-> | ->]; [reflexivity |].
    now rewrite string_compare_refl.
Qed.

Lemma string_leb_trans (s1 s2 s3 : string) :
  String.leb s1 s2 = true -> String.leb s2 s3 = true ->
  String.leb s1 s3 = true.
Proof.
  rewrite !string_leb_cases.
  intros [H12 | ->] [H23 | ->]; auto.
  left. eapply string_compare_lt_trans; eassumption.
Qed.

Lemma key_leb_total (k1 k2 : bool * string) :
  key_leb k1 k2 = true \/ key_leb k2 k1 = true.
Proof.
  destruct k1 as [[] s1], k2 as [[] s2]; unfold key_leb; simpl; auto;
    apply String.leb_total.
Qed.

Lemma key_leb_trans (k1 k2 k3 : bool * string) :
  key_leb k1 k2 = true -> key_leb k2 k3 = true -> key_leb k1 k3 = true.
Proof.
  destruct k1 as [[] s1], k2 as [[] s2], k3 as [[] s3];
    unfold key_leb; simpl; try discriminate; auto;
    apply string_leb_trans.
Qed.

Section SortedFacts.
Context {A K : Type} (leb : K -> K -> bool) (key : A -> K).
Hypothesis leb_total : forall a b, leb a b = true \/ leb b a = true.
Hypothesis leb_trans :
  forall a b c, leb a b = true -> leb b c = true -> leb a c = true.

Lemma insert_sorted_perm (x : A) (l : list A) :
  Permutation (x :: l) (insert_sorted leb key x l).
Proof.
  induction l as [| y l IH]; simpl.
  - apply Permutation_refl.
  - destruct (leb (key x) (key y)).
    + apply Permutation_refl.
    + eapply perm_trans; [apply perm_swap |].
      now apply perm_skip.
Qed.

Lemma sorted_perm (l : list A) : Permutation l (sorted leb key l).
Proof.
  induction l as [| x l IH]; simpl; [constructor |].
  eapply perm_trans; [apply perm_skip, IH | apply insert_sorted_perm].
Qed.

Lemma insert_sorted_strongly (x : A) (l : list A) :
  StronglySorted (le_by leb key) l ->
  StronglySorted (le_by leb key) (insert_sorted leb key x l).
Proof.
  induction 1 as [| y l Hl IH Hy]; simpl.
  - repeat constructor.
  - destruct (leb (key x) (key y)) eqn:Hxy.
    + constructor; [now constructor |].
      constructor; [exact Hxy |].
      eapply Forall_impl; [| exact Hy].
      intros z Hz. unfold le_by in *. eauto.
    + constructor; [exact IH |].
      assert (Hyx : le_by leb key y x).
      { destruct (leb_total (key x) (key y)); [congruence | assumption]. }
      eapply Permutation_Forall; [apply insert_sorted_perm |].
      now constructor.
Qed.

Lemma sorted_strongly (l : list A) :
  StronglySorted (le_by leb key) (sorted leb key l).
Proof.
  induction l as [| x l IH]; simpl;
    [constructor | now apply insert_sorted_strongly].
Qed.

Lemma strongly_sorted_nth (l : list A) :
  StronglySorted (le_by leb key) l ->
  forall i j x y, (i < j)%nat ->
    nth_error l i = Some x -> nth_error l j = Some y -> le_by leb key x y.
Proof.
  induction 1 as [| z l Hl IH Hz]; intros i j x y Hij Hi Hj.
  - destruct i; discriminate.
  - destruct j as [| j]; [lia |]. simpl in Hj.
    destruct i as [| i]; simpl in Hi.
    + injection Hi as <-.
      rewrite Forall_forall in Hz. eapply Hz, nth_error_In, Hj.
    + eapply (IH i j); eauto. lia.
Qed.
End SortedFacts.

(** The sorting of line 155 holds the same templates, every base template
    stands in it before every template that is not one, and two templates
    of the same group stand by ascending path. *)
Lemma merge_order_sorted (templates : list template) :
  Permutation templates (merge_order templates)
  /\ StronglySorted (fun t u => key_leb (merge_key t) (merge_key u) = true)
       (merge_order templates)
  /\ forall i j t u, (i < j)%nat ->
       nth_error (merge_order templates) i = Some t ->
       nth_error (merge_order templates) j = Some u ->
       (is_base u = true -> is_base t = true)
       /\ (is_base t = is_base u ->
           String.leb (rel_path t) (rel_path u) = true).
Proof.
  assert (Hs := sorted_strongly key_leb merge_key key_leb_total key_leb_trans
                  templates).
  split; [apply sorted_perm | split; [exact Hs |]].
  intros i j t u Hij Ht Hu.
  pose proof (strongly_sorted_nth key_leb merge_key _ Hs i j t u Hij Ht Hu)
    as Hle.
  unfold le_by, key_leb, merge_key in Hle; simpl in Hle.
  destruct (is_base t), (is_base u); simpl in Hle; split; intros;
    try congruence; auto.
Qed.

(** The example of the specification: b.md and c.md are base templates,
    a.md is not; the merge takes them as b.md, c.md, a.md. *)
Example merge_order_example :
  let item p b := {| path := [p]; rel_path := p; title := p;
                     description := EmptyString; extends := None;
                     is_base := b |} in
  map rel_path (merge_order [item "b.md" true; item "a.md" false;
                             item "c.md" true])
  = ["b.md"; "c.md"; "a.md"].
Proof. reflexivity. Qed.

(* ===================================================================== *)
(** * The loop, one key event at a time *)
(* ===================================================================== *)

Section LoopFacts.
Context {termattrs : Type}.
Implicit Types (w : world termattrs) (ts : list template).

Lemma recognized_false (c : ascii) :
  recognized c = false ->
  Ascii.eqb c ESC = false /\ Ascii.eqb c "k"%char = false
  /\ Ascii.eqb c "j"%char = false /\ Ascii.eqb c " "%char = false
  /\ Ascii.eqb c CR = false /\ Ascii.eqb c LF = false
  /\ Ascii.eqb c "q"%char = false /\ Ascii.eqb c ETX = false.
Proof.
  unfold recognized. intros H.
  repeat (apply orb_false_iff in H; destruct H as [H ?]).
  repeat split; assumption.
Qed.

(** On the bytes of a key event the loop renders once, applies [step],
    and goes on with the rest of the input. *)
Lemma loop_key ts (k : key) (rest : list input) (current : Z)
    (selected : list bool) w :
  key_ok k = true ->
  loop ts (keystrokes [k] ++ rest) current selected w
  = (render ts current selected ;;
     st <- lift (step (List.length ts) k (current, selected)) ;;
     loop ts rest (fst st) (snd st)) w.
Proof.
  intros Hok.
  destruct k; cbn [keystrokes flat_map bytes_of_key map app loop];
    unfold bind; destruct (render ts current selected w) as [[[] | e |] w'];
    try reflexivity; cbn [step key_ok] in *.
  - change (Ascii.eqb ESC ESC) with true. cbv iota.
    change (Ascii.eqb "[" "[") with true. cbv iota.
    change (Ascii.eqb "A" "A") with true. cbv iota.
    destruct (cursor_up (List.length ts) current); reflexivity.
  - change (Ascii.eqb ESC ESC) with true. cbv iota.
    change (Ascii.eqb "[" "[") with true. cbv iota.
    change (Ascii.eqb "B" "A") with false. cbv iota.
    change (Ascii.eqb "B" "B") with true. cbv iota.
    destruct (cursor_down (List.length ts) current); reflexivity.
  - change (Ascii.eqb "k" ESC) with false. cbv iota.
    change (Ascii.eqb "k" "k") with true. cbv iota.
    destruct (cursor_up (List.length ts) current); reflexivity.
  - change (Ascii.eqb "j" ESC) with false. cbv iota.
    change (Ascii.eqb "j" "k") with false. cbv iota.
    change (Ascii.eqb "j" "j") with true. cbv iota.
    destruct (cursor_down (List.length ts) current); reflexivity.
  - change (Ascii.eqb " " ESC) with false. cbv iota.
    change (Ascii.eqb " " "k") with false. cbv iota.
    change (Ascii.eqb " " "j") with false. cbv iota.
    change (Ascii.eqb " " " ") with true. cbv iota.
    destruct (toggle selected current); reflexivity.
  - change (Ascii.eqb ESC ESC) with true. cbv iota.
    apply negb_true_iff in Hok. rewrite Hok. reflexivity.
  - change (Ascii.eqb ESC ESC) with true. cbv iota.
    change (Ascii.eqb "[" "[") with true. cbv iota.
    apply andb_prop in Hok as [HA HB].
    apply negb_true_iff in HA, HB. rewrite HA, HB. reflexivity.
  - apply negb_true_iff in Hok.
    destruct (recognized_false _ Hok)
      as (-> & -> & -> & -> & -> & -> & -> & ->).
    reflexivity.
Qed.

End LoopFacts.

(* ===================================================================== *)
(** * The selection state under key events *)
(* ===================================================================== *)

Lemma length_list_set {A} (l : list A) (k : nat) (v : A) :
  List.length (list_set l k v) = List.length l.
Proof.
  revert k; induction l as [| x l IH]; intros [| k]; simpl; auto.
Qed.

Lemma nth_error_list_set_eq {A} (l : list A) (k : nat) (v : A) :
  (k < List.length l)%nat -> nth_error (list_set l k v) k = Some v.
Proof.
  revert k; induction l as [| x l IH]; intros [| k]; simpl; intros H;
    try lia; auto.
  apply IH. lia.
Qed.

Lemma nth_error_list_set_ne {A} (l : list A) (k j : nat) (v : A) :
  j <> k -> nth_error (list_set l k v) j = nth_error l j.
Proof.
  revert k j; induction l as [| x l IH]; intros [| k] [| j] H; simpl;
    try reflexivity; try congruence.
  apply IH. congruence.
Qed.

Lemma py_index_in_range (n : nat) (i : Z) :
  (0 <= i < Z.of_nat n)%Z -> py_index n i = Some (Z.to_nat i).
Proof.
  intros H. unfold py_index.
  destruct (Z.leb_spec 0 i), (Z.ltb_spec i (Z.of_nat n)); simpl;
    try lia; reflexivity.
Qed.

Lemma py_index_lt (n : nat) (i : Z) (k : nat) :
  py_index n i = Some k -> (k < n)%nat.
Proof.
  unfold py_index.
  destruct (Z.leb_spec 0 i), (Z.ltb_spec i (Z.of_nat n)); simpl;
    try (intros [= <-]; lia);
    destruct (Z.leb_spec (- Z.of_nat n) i), (Z.ltb_spec i 0); simpl;
    try discriminate; intros [= <-]; lia.
Qed.

Lemma step_down (n : nat) (c : Z) (sel : list bool) (k : key) :
  (1 <= n)%nat -> k = ArrowDown \/ k = VimDown ->
  step n k (c, sel) = inr (((c + 1) mod Z.of_nat n)%Z, sel).
Proof.
  intros Hn [-> | ->]; unfold step, cursor_down, py_mod;
    destruct (Z.eqb_spec (Z.of_nat n) 0); try lia; reflexivity.
Qed.

Lemma step_up (n : nat) (c : Z) (sel : list bool) (k : key) :
  (1 <= n)%nat -> k = ArrowUp \/ k = VimUp ->
  step n k (c, sel) = inr (((c - 1 + Z.of_nat n) mod Z.of_nat n)%Z, sel).
Proof.
  intros Hn [-> | ->]; unfold step, cursor_up, py_mod;
    destruct (Z.eqb_spec (Z.of_nat n) 0); try lia;
    rewrite <- (Z_mod_plus_full (c - 1) 1 (Z.of_nat n));
    do 3 f_equal; lia.
Qed.

Lemma toggle_in_range (sel : list bool) (c : Z) :
  (0 <= c < Z.of_nat (List.length sel))%Z ->
  toggle sel c
  = inr (list_set sel (Z.to_nat c) (negb (nth (Z.to_nat c) sel false))).
Proof.
  intros H. unfold toggle, getitem, setitem.
  rewrite (py_index_in_range _ _ H).
  destruct (nth_error sel (Z.to_nat c)) as [b |] eqn:E.
  - now rewrite (nth_error_nth _ _ false E).
  - apply nth_error_None in E. lia.
Qed.

Lemma step_valid (n : nat) (k : key) (st : selection) :
  valid n st -> exists st', step n k st = inr st' /\ valid n st'.
Proof.
  destruct st as [c sel]. intros [Hc Hlen]; simpl in Hc, Hlen.
  assert (Hn : (1 <= n)%nat) by lia.
  assert (Hmod : forall z, (0 <= z mod Z.of_nat n < Z.of_nat n)%Z)
    by (intros; apply Z.mod_pos_bound; lia).
  destruct k.
  1, 3: rewrite (step_up n c sel _ Hn) by auto; eexists; split;
        [reflexivity | split; simpl; auto].
  1, 2: rewrite (step_down n c sel _ Hn) by auto; eexists; split;
        [reflexivity | split; simpl; auto].
  2, 3, 4: eexists; split; [reflexivity | split; simpl; auto].
  cbn [step]. rewrite toggle_in_range by lia.
  eexists; split; [reflexivity |].
  split; simpl; [lia | now rewrite length_list_set].
Qed.

Lemma run_keys_valid (n : nat) (ks : list key) (st : selection) :
  valid n st -> exists st', run_keys n ks st = inr st' /\ valid n st'.
Proof.
  revert st; induction ks as [| k ks IH]; intros st Hst; simpl.
  - eauto.
  - destruct (step_valid n k st Hst) as (st1 & -> & Hst1). now apply IH.
Qed.

Lemma run_keys_down (n : nat) (k : key) (m : nat) (sel : list bool) :
  (1 <= n)%nat -> k = ArrowDown \/ k = VimDown ->
  forall c, (0 <= c < Z.of_nat n)%Z ->
  run_keys n (repeat k m) (c, sel)
  = inr (((c + Z.of_nat m) mod Z.of_nat n)%Z, sel).
Proof.
  intros Hn Hk. induction m as [| m IH]; intros c Hc.
  - simpl. rewrite Z.add_0_r, Z.mod_small by lia. reflexivity.
  - cbn [repeat run_keys]. rewrite (step_down n c sel k Hn Hk).
    rewrite IH by (apply Z.mod_pos_bound; lia).
    rewrite Zplus_mod_idemp_l. do 3 f_equal. lia.
Qed.

Lemma run_keys_up (n : nat) (k : key) (m : nat) (sel : list bool) :
  (1 <= n)%nat -> k = ArrowUp \/ k = VimUp ->
  forall c, (0 <= c < Z.of_nat n)%Z ->
  run_keys n (repeat k m) (c, sel)
  = inr (((c - Z.of_nat m) mod Z.of_nat n)%Z, sel).
Proof.
  intros Hn Hk. induction m as [| m IH]; intros c Hc.
  - simpl. rewrite Z.sub_0_r, Z.mod_small by lia. reflexivity.
  - cbn [repeat run_keys]. rewrite (step_up n c sel k Hn Hk).
    rewrite IH by (apply Z.mod_pos_bound; lia).
    rewrite Zminus_mod_idemp_l.
    rewrite <- (Z_mod_plus_full (c - Z.of_nat (S m)) 1 (Z.of_nat n)).
    do 3 f_equal. lia.
Qed.

Section KeyEventFacts.
Context {termattrs : Type}.
Implicit Types (w : world termattrs) (ts : list template).

(** C3: with N >= 1 items and the cursor at 0 <= c < N, a down-move
    (down-arrow or j) sets the cursor to (c + 1) mod N and an up-move
    (up-arrow or k) sets it to (c - 1 + N) mod N, the flags untouched, and
    the loop goes on from there; N down-moves in a row, or N up-moves,
    bring the cursor back to c. *)
Theorem cursor_moves_cyclic ts (rest : list input) (c : Z)
    (sel : list bool) w :
  let n := List.length ts in
  let N := Z.of_nat n in
  (1 <= n)%nat -> (0 <= c < N)%Z ->
  (forall k, k = ArrowDown \/ k = VimDown ->
     step n k (c, sel) = inr (((c + 1) mod N)%Z, sel)
     /\ loop ts (keystrokes [k] ++ rest) c sel w
        = (render ts c sel ;; loop ts rest ((c + 1) mod N)%Z sel) w
     /\ run_keys n (repeat k n) (c, sel) = inr (c, sel))
  /\ (forall k, k = ArrowUp \/ k = VimUp ->
     step n k (c, sel) = inr (((c - 1 + N) mod N)%Z, sel)
     /\ loop ts (keystrokes [k] ++ rest) c sel w
        = (render ts c sel ;; loop ts rest ((c - 1 + N) mod N)%Z sel) w
     /\ run_keys n (repeat k n) (c, sel) = inr (c, sel)).
Proof.
  intros n N Hn Hc. split; intros k Hk.
  - pose proof (step_down n c sel k Hn Hk) as Hstep.
    split; [exact Hstep | split].
    + rewrite loop_key by (destruct Hk as [-> | ->]; reflexivity).
      fold n. rewrite Hstep. reflexivity.
    + rewrite (run_keys_down n k n sel Hn Hk c Hc). do 2 f_equal.
      fold N. rewrite <- (Z.mul_1_l N) at 1.
      rewrite Z_mod_plus_full. apply Z.mod_small, Hc.
  - pose proof (step_up n c sel k Hn Hk) as Hstep.
    split; [exact Hstep | split].
    + rewrite loop_key by (destruct Hk as [-> | ->]; reflexivity).
      fold n. rewrite Hstep. reflexivity.
    + rewrite (run_keys_up n k n sel Hn Hk c Hc). do 2 f_equal.
      fold N. replace (c - N)%Z with (c + (-1) * N)%Z by lia.
      rewrite Z_mod_plus_full. apply Z.mod_small, Hc.
Qed.

(** C9: one key event changes at most one component of the selection
    state.  The loop applies [step] to the event, which from a valid state
    gives a valid state; an up or down move (arrow or j/k) leaves every
    flag as it was; Space leaves the cursor and the
    number of flags as they were, negates the flag under the cursor and
    leaves every other flag as it was; a byte outside the recognized
    alphabet, like an escape sequence that is no arrow, leaves the cursor
    and the flags as they were. *)
Theorem key_event_frame ts (k : key) (rest : list input) (cur : Z)
    (sel : list bool) w :
  key_ok k = true ->
  loop ts (keystrokes [k] ++ rest) cur sel w
  = (render ts cur sel ;;
     st <- lift (step (List.length ts) k (cur, sel)) ;;
     loop ts rest (fst st) (snd st)) w
  /\ (valid (List.length ts) (cur, sel) ->
      exists st', step (List.length ts) k (cur, sel) = inr st'
                  /\ valid (List.length ts) st')
  /\ forall cur' sel',
       step (List.length ts) k (cur, sel) = inr (cur', sel') ->
       match k with
       | ArrowUp | ArrowDown | VimUp | VimDown => sel' = sel
       | Space =>
           cur' = cur /\ List.length sel' = List.length sel
           /\ exists pos, py_index (List.length sel) cur = Some pos
                /\ nth_error sel' pos = option_map negb (nth_error sel pos)
                /\ forall j, j <> pos -> nth_error sel' j = nth_error sel j
       | Escape2 _ | Escape3 _ | Other _ => cur' = cur /\ sel' = sel
       end.
Proof.
  intros Hok. split; [now apply loop_key |].
  split; [apply step_valid |].
  intros cur' sel'. destruct k; cbn [step].
  1, 3: destruct (cursor_up _ cur); [discriminate | now intros [= _ <-]].
  1, 2: destruct (cursor_down _ cur); [discriminate | now intros [= _ <-]].
  2, 3, 4: now intros [= <- <-].
  unfold toggle, getitem, setitem.
  destruct (py_index (List.length sel) cur) as [pos |] eqn:Hpos;
    [| discriminate].
  destruct (nth_error sel pos) as [b |] eqn:Hb; [| discriminate].
  intros [= <- <-].
  split; [reflexivity | split; [apply length_list_set |]].
  exists pos. split; [reflexivity | split].
  - rewrite nth_error_list_set_eq by (eapply py_index_lt; eassumption).
    now rewrite Hb.
  - intros j Hj. now apply nth_error_list_set_ne.
Qed.

End KeyEventFacts.

(* ===================================================================== *)
(** * What the effects leave untouched *)
(* ===================================================================== *)

Section Effects.
Context {termattrs : Type}.
Implicit Types (w : world termattrs) (ts : list template).

Lemma frame_refl w : frame w w.
Proof. repeat split. Qed.

Lemma frame_trans w1 w2 w3 : frame w1 w2 -> frame w2 w3 -> frame w1 w3.
Proof.
  unfold frame. intros (-> & -> & -> & ->) (-> & -> & -> & ->).
  repeat split.
Qed.

Lemma preserves_ret {A} (a : A) :
  preserves (termattrs := termattrs) (ret a).
Proof. intros w. apply frame_refl. Qed.

Lemma preserves_raise {A} (e : exn) : preserves (@raise termattrs A e).
Proof. intros w. apply frame_refl. Qed.

Lemma preserves_blocked {A} : preserves (@blocked termattrs A).
Proof. intros w. apply frame_refl. Qed.

Lemma preserves_lift {A} (r : res A) :
  preserves (termattrs := termattrs) (lift r).
Proof. destruct r; intros w; apply frame_refl. Qed.

Lemma preserves_bind {A B} (m : M termattrs A) (k : A -> M termattrs B) :
  preserves m -> (forall a, preserves (k a)) -> preserves (bind m k).
Proof.
  intros Hm Hk w. unfold bind. specialize (Hm w).
  destruct (m w) as [[a | e |] w1]; simpl in *; auto.
  eapply frame_trans; [exact Hm | apply Hk].
Qed.

Lemma preserves_stdout_write (text : string) :
  preserves (termattrs := termattrs) (stdout_write text).
Proof.
  intros w. unfold stdout_write.
  destruct (stdout_fault w) as [[[| n] e] |]; simpl; repeat split.
Qed.

Lemma preserves_write (text : string) :
  preserves (termattrs := termattrs) (write text).
Proof. apply preserves_stdout_write. Qed.

Lemma preserves_render_items ts (i cur : Z) (sel : list bool) :
  preserves (termattrs := termattrs) (render_items ts i cur sel).
Proof.
  revert i; induction ts as [| t ts IH]; intros i; cbn [render_items].
  - apply preserves_ret.
  - apply preserves_bind; [apply preserves_lift | intros b].
    apply preserves_bind; [apply preserves_write | intros _].
    apply preserves_bind; [apply preserves_write | intros _]. apply IH.
Qed.

Lemma preserves_render ts (cur : Z) (sel : list bool) :
  preserves (termattrs := termattrs) (render ts cur sel).
Proof.
  unfold render.
  repeat (apply preserves_bind; [| intros _]);
    auto using preserves_write, preserves_render_items.
Qed.

Lemma loop_unfold ts (inp : list input) (current : Z) (selected : list bool) :
  loop ts inp current selected
  = (render ts current selected ;;
     match inp return M termattrs loop_exit with
     | [] => blocked
     | Fault e :: _ => raise e
     | Hangup :: _ => hangup
     | Byte ch :: rest =>
         if Ascii.eqb ch ESC then
           match rest return M termattrs loop_exit with
           | [] => blocked
           | Fault e :: _ => raise e
           | Hangup :: _ => hangup
           | Byte ch2 :: rest2 =>
               if Ascii.eqb ch2 "["%char then
                 match rest2 return M termattrs loop_exit with
                 | [] => blocked
                 | Fault e :: _ => raise e
                 | Hangup :: _ => hangup
                 | Byte ch3 :: rest3 =>
                     if Ascii.eqb ch3 "A"%char then
                       c <- lift (cursor_up (List.length ts) current) ;;
                       loop ts rest3 c selected
                     else if Ascii.eqb ch3 "B"%char then
                       c <- lift (cursor_down (List.length ts) current) ;;
                       loop ts rest3 c selected
                     else loop ts rest3 current selected
                 end
               else loop ts rest2 current selected
           end
         else if Ascii.eqb ch "k"%char then
           c <- lift (cursor_up (List.length ts) current) ;;
           loop ts rest c selected
         else if Ascii.eqb ch "j"%char then
           c <- lift (cursor_down (List.length ts) current) ;;
           loop ts rest c selected
         else if Ascii.eqb ch " "%char then
           s <- lift (toggle selected current) ;;
           loop ts rest current s
         else if Ascii.eqb ch CR || Ascii.eqb ch LF then
           ret (Break selected)
         else if Ascii.eqb ch "q"%char || Ascii.eqb ch ETX then
           write clear_screen ;;
           write ("Cancelled." ++ nl) ;;
           ret ReturnEmpty
         else loop ts rest current selected
     end).
Proof. destruct inp; reflexivity. Qed.

Lemma same_files_refl w : same_files w w.
Proof. repeat split. Qed.

Lemma same_files_trans w1 w2 w3 :
  same_files w1 w2 -> same_files w2 w3 -> same_files w1 w3.
Proof.
  unfold same_files. intros (-> & -> & ->) (-> & -> & ->). repeat split.
Qed.

Lemma frame_same_files w w' : frame w w' -> same_files w w'.
Proof. unfold frame, same_files. tauto. Qed.

Lemma same_files_set_tty (a : termattrs) w : same_files w (set_tty a w).
Proof. repeat split. Qed.

Lemma preserves_survives {A} (lost : Prop) (m : M termattrs A) :
  preserves m -> survives_if lost m.
Proof. intros H w. left. apply H. Qed.

Lemma survives_weaken {A} (lost lost' : Prop) (m : M termattrs A) :
  (lost -> lost') -> survives_if lost m -> survives_if lost' m.
Proof.
  intros Himp Hm w. destruct (Hm w) as [Hf | (Hl & Hrest)]; [now left |].
  right. split; [now apply Himp | exact Hrest].
Qed.

Lemma survives_hangup {A} (lost : Prop) :
  lost -> survives_if lost (@hangup termattrs A).
Proof.
  intros Hl w. right. split; [exact Hl |].
  split; [repeat split | split; [reflexivity | now exists OSError]].
Qed.

Lemma survives_bind {A B} (lost : Prop) (m : M termattrs A)
    (k : A -> M termattrs B) :
  survives_if lost m -> (forall a, survives_if lost (k a)) ->
  survives_if lost (bind m k).
Proof.
  intros Hm Hk w. unfold bind.
  destruct (Hm w) as [Hf | (Hl & Hs & Hnone & e & He)].
  - destruct (m w) as [[a | e |] w1]; cbn [snd] in *; try now left.
    destruct (Hk a w1) as [Hf1 | (Hl & Hs1 & Hnone & e & He)].
    + left. eapply frame_trans; eassumption.
    + right. split; [exact Hl |].
      split; [| split; [exact Hnone | now exists e]].
      eapply same_files_trans; [apply frame_same_files, Hf | exact Hs1].
  - destruct (m w) as [o w1]; cbn [fst snd] in *. subst o. right.
    split; [exact Hl |]. split; [exact Hs |]. split; [exact Hnone |].
    now exists e.
Qed.

(** The loop touches the standard output only, however it ends, unless
    the terminal hangs up under it: it then raises, the terminal gone. *)
Lemma survives_loop ts (inp : list input) :
  forall current selected,
    survives_if (termattrs := termattrs) (In Hangup inp)
      (loop ts inp current selected).
Proof.
  remember (List.length inp) as m eqn:Hm.
  assert (Hle : (List.length inp <= m)%nat) by lia. clear Hm.
  revert inp Hle.
  induction m as [| m IH]; intros inp Hle current selected;
    rewrite loop_unfold;
    (apply survives_bind;
     [apply preserves_survives, preserves_render | intros _]).
  - destruct inp; [| simpl in Hle; lia].
    apply preserves_survives, preserves_blocked.
  - assert (Hrec : forall rest c s,
               (List.length rest <= m)%nat ->
               (In Hangup rest -> In Hangup inp) ->
               survives_if (termattrs := termattrs) (In Hangup inp)
                 (loop ts rest c s)).
    { intros rest c s Hr Hin.
      eapply survives_weaken; [exact Hin | now apply IH]. }
    assert (Hmove : forall rest (r : res Z) s,
               (List.length rest <= m)%nat ->
               (In Hangup rest -> In Hangup inp) ->
               survives_if (termattrs := termattrs) (In Hangup inp)
                 (c <- lift r ;; loop ts rest c s)).
    { intros rest r s Hr Hin.
      apply survives_bind;
        [apply preserves_survives, preserves_lift | intros c]; auto. }
    destruct inp as [| [ch | e |] rest];
      [apply preserves_survives, preserves_blocked
      | | apply preserves_survives, preserves_raise
      | apply survives_hangup; now left].
    simpl in Hle.
    destruct (Ascii.eqb ch ESC).
    { destruct rest as [| [ch2 | e |] rest2];
        [apply preserves_survives, preserves_blocked
        | | apply preserves_survives, preserves_raise
        | apply survives_hangup; simpl; auto].
      simpl in Hle.
      destruct (Ascii.eqb ch2 "[").
      - destruct rest2 as [| [ch3 | e |] rest3];
          [apply preserves_survives, preserves_blocked
          | | apply preserves_survives, preserves_raise
          | apply survives_hangup; simpl; auto].
        simpl in Hle.
        destruct (Ascii.eqb ch3 "A"); [apply Hmove; simpl; auto; lia |].
        destruct (Ascii.eqb ch3 "B"); [apply Hmove; simpl; auto; lia |].
        apply Hrec; simpl; auto; lia.
      - apply Hrec; simpl; auto; lia. }
    destruct (Ascii.eqb ch "k"); [apply Hmove; simpl; auto; lia |].
    destruct (Ascii.eqb ch "j"); [apply Hmove; simpl; auto; lia |].
    destruct (Ascii.eqb ch " ").
    { apply survives_bind;
        [apply preserves_survives, preserves_lift | intros s].
      apply Hrec; simpl; auto; lia. }
    destruct (Ascii.eqb ch CR || Ascii.eqb ch LF);
      [apply preserves_survives, preserves_ret |].
    destruct (Ascii.eqb ch "q" || Ascii.eqb ch ETX).
    { apply preserves_survives.
      repeat (apply preserves_bind; [apply preserves_write | intros _]).
      apply preserves_ret. }
    apply Hrec; simpl; auto; lia.
Qed.

End Effects.

Section CalmRuns.
Context {termattrs : Type}.
Implicit Types (w : world termattrs) (ts : list template).

Lemma succeeds_ret {A} (a : A) : succeeds (termattrs := termattrs) (ret a) a.
Proof. intros w Hw. exists w. auto using frame_refl. Qed.

Lemma succeeds_bind {A B} (m : M termattrs A) (k : A -> M termattrs B)
    (a : A) (b : B) :
  succeeds m a -> succeeds (k a) b -> succeeds (bind m k) b.
Proof.
  intros Hm Hk w Hw. unfold bind.
  destruct (Hm w Hw) as (w1 & -> & Hf1 & Hc1).
  destruct (Hk w1 Hc1) as (w2 & -> & Hf2 & Hc2).
  exists w2. eauto using frame_trans.
Qed.

Lemma succeeds_stdout_write (text : string) :
  succeeds (termattrs := termattrs) (stdout_write text) tt.
Proof.
  intros w Hw. unfold stdout_write. rewrite Hw.
  eexists. split; [reflexivity |]. split; [repeat split | reflexivity].
Qed.

Lemma succeeds_write (text : string) :
  succeeds (termattrs := termattrs) (write text) tt.
Proof. apply succeeds_stdout_write. Qed.

Lemma getitem_in_range {A} (l : list A) (i : nat) (d : A) :
  (i < List.length l)%nat -> getitem l (Z.of_nat i) = inr (nth i l d).
Proof.
  intros H. unfold getitem.
  rewrite py_index_in_range, Nat2Z.id by lia.
  destruct (nth_error l i) eqn:E.
  - now rewrite (nth_error_nth _ _ d E).
  - apply nth_error_None in E. lia.
Qed.

Lemma succeeds_render_items ts (i : nat) (cur : Z) (sel : list bool) :
  (i + List.length ts <= List.length sel)%nat ->
  succeeds (termattrs := termattrs)
    (render_items ts (Z.of_nat i) cur sel) tt.
Proof.
  revert i; induction ts as [| t ts IH]; intros i Hi; cbn [render_items].
  - apply succeeds_ret.
  - simpl in Hi.
    rewrite (getitem_in_range sel i false) by lia. simpl lift.
    eapply succeeds_bind; [apply succeeds_ret |].
    eapply succeeds_bind; [apply succeeds_write |].
    eapply succeeds_bind; [apply succeeds_write |].
    replace (Z.of_nat i + 1)%Z with (Z.of_nat (S i)) by lia.
    apply IH. lia.
Qed.

Lemma succeeds_render ts (cur : Z) (sel : list bool) :
  List.length sel = List.length ts ->
  succeeds (termattrs := termattrs) (render ts cur sel) tt.
Proof.
  intros Hlen. unfold render.
  eapply succeeds_bind; [apply succeeds_write |].
  eapply succeeds_bind; [apply succeeds_write |].
  eapply succeeds_bind;
    [apply (succeeds_render_items ts 0); simpl; lia | apply succeeds_write].
Qed.

Lemma keystrokes_cons (k : key) (ks : list key) (rest : list input) :
  keystrokes (k :: ks) ++ rest = keystrokes [k] ++ (keystrokes ks ++ rest).
Proof.
  unfold keystrokes. simpl. rewrite app_nil_r, map_app, app_assoc.
  reflexivity.
Qed.

(** Over a sequence of key events the loop carries the selection state
    as [run_keys] does, and hands it to the rest of the input. *)
Lemma loop_keys ts (ks : list key) (rest : list input) :
  Forall (fun k => key_ok k = true) ks ->
  forall st w, valid (List.length ts) st -> calm w ->
  exists st' w',
    run_keys (List.length ts) ks st = inr st'
    /\ valid (List.length ts) st' /\ frame w w' /\ calm w'
    /\ loop ts (keystrokes ks ++ rest) (fst st) (snd st) w
       = loop ts rest (fst st') (snd st') w'.
Proof.
  induction 1 as [| k ks Hk _ IH]; intros st w Hst Hw.
  - exists st, w. simpl. auto using frame_refl.
  - rewrite keystrokes_cons, loop_key by assumption.
    destruct (succeeds_render ts (fst st) (snd st) (proj2 Hst) w Hw)
      as (w1 & Hrender & Hf1 & Hc1).
    destruct (step_valid _ k st Hst) as (st1 & Hstep & Hst1).
    destruct (IH st1 w1 Hst1 Hc1) as (st' & w' & Hrun & Hst' & Hf & Hc & Hloop).
    exists st', w'. cbn [run_keys]. rewrite Hstep.
    split; [exact Hrun |]. split; [exact Hst' |].
    split; [eapply frame_trans; eassumption |]. split; [exact Hc |].
    unfold bind. rewrite Hrender.
    destruct st as [c s]. cbn [fst snd] in *. rewrite Hstep. exact Hloop.
Qed.

Lemma combine_skipn_cons {A B} (t : A) (ts : list A) (l : list B) (i : nat)
    (d : B) :
  (i < List.length l)%nat ->
  combine (t :: ts) (skipn i l) = (t, nth i l d) :: combine ts (skipn (S i) l).
Proof.
  revert i; induction l as [| x l IH]; intros [| i] H; simpl in *;
    try lia; try reflexivity.
  apply IH. lia.
Qed.

(** Line 145 gives the items whose flag is true, in the order of the list. *)
Lemma select_items_spec ts (sel : list bool) (i : nat) :
  (i + List.length ts <= List.length sel)%nat ->
  select_items ts (Z.of_nat i) sel = inr (items_selected ts (skipn i sel)).
Proof.
  revert i; induction ts as [| t ts IH]; intros i Hi; cbn [select_items].
  - reflexivity.
  - simpl in Hi. rewrite (getitem_in_range sel i false) by lia.
    replace (Z.of_nat i + 1)%Z with (Z.of_nat (S i)) by lia.
    rewrite IH by lia. unfold items_selected.
    rewrite (combine_skipn_cons t ts sel i false) by lia.
    simpl. destruct (nth i sel false); reflexivity.
Qed.

End CalmRuns.

(* ===================================================================== *)
(** * The flags at confirmation time *)
(* ===================================================================== *)

Lemma nth_list_set_eq {A} (l : list A) (k : nat) (v d : A) :
  (k < List.length l)%nat -> nth k (list_set l k v) d = v.
Proof.
  intros H. apply nth_error_nth. now apply nth_error_list_set_eq.
Qed.

Lemma nth_list_set_ne {A} (l : list A) (k j : nat) (v d : A) :
  j <> k -> nth j (list_set l k v) d = nth j l d.
Proof.
  intros H.
  rewrite <- !nth_default_eq. unfold nth_default.
  now rewrite nth_error_list_set_ne.
Qed.

(** A flag has been negated once for every Space event that arrived with
    the cursor on it: it depends on how many there were, not on when. *)
Lemma run_keys_flags (n : nat) (ks : list key) :
  forall st st', valid n st -> run_keys n ks st = inr st' ->
  forall i, (i < n)%nat ->
    nth i (snd st') false
    = xorb (nth i (snd st) false)
           (Nat.odd (count_occ Z.eq_dec (toggled n ks st) (Z.of_nat i))).
Proof.
  induction ks as [| k ks IH]; intros st st' Hst Hrun i Hi.
  - injection Hrun as <-. simpl. now rewrite xorb_false_r.
  - cbn [run_keys toggled] in *.
    destruct (step_valid n k st Hst) as (st1 & Hstep & Hst1).
    rewrite Hstep in *.
    specialize (IH st1 st' Hst1 Hrun i Hi). rewrite IH. clear IH Hrun.
    destruct st as [c sel], Hst as [Hc Hlen]; cbn [fst snd] in *.
    assert (Hn : (1 <= n)%nat) by lia.
    destruct k;
      try (rewrite (step_up n c sel _ Hn) in Hstep by auto);
      try (rewrite (step_down n c sel _ Hn) in Hstep by auto);
      try (injection Hstep as <-; reflexivity).
    cbn [step] in Hstep. rewrite toggle_in_range in Hstep by lia.
    injection Hstep as <-. cbn [snd count_occ].
    destruct (Z.eq_dec c (Z.of_nat i)) as [-> | Hne].
    + rewrite Nat2Z.id, nth_list_set_eq by lia.
      rewrite Nat.odd_succ, <- Nat.negb_odd.
      destruct (nth i sel false), (Nat.odd _); reflexivity.
    + rewrite nth_list_set_ne by lia. reflexivity.
Qed.

Lemma nth_repeat_false (n i : nat) : nth i (repeat false n) false = false.
Proof.
  revert i; induction n as [| n IH]; intros [| i]; simpl; auto.
Qed.

(* ===================================================================== *)
(** * Properties of [interactive_select] *)
(* ===================================================================== *)

Section Selection.
Context {termattrs : Type} (setraw_attrs : termattrs -> termattrs).
Implicit Types (w : world termattrs) (ts : list template).

Lemma bind_return {A B} (m : M termattrs A) (k : A -> M termattrs B)
    w (x : A) w1 :
  m w = (Return x, w1) -> bind m k w = k x w1.
Proof. unfold bind. now intros ->. Qed.

Lemma setraw_run w (a : termattrs) :
  tty_attrs w = Some a ->
  setraw setraw_attrs w = (Return tt, set_tty (setraw_attrs a) w).
Proof.
  intros Htty. unfold setraw.
  rewrite (bind_return _ _ w a w) by (unfold tcgetattr; now rewrite Htty).
  unfold tcsetattr. now rewrite Htty.
Qed.

Lemma tcsetattr_run w (a b : termattrs) :
  tty_attrs w = Some b -> tcsetattr a w = (Return tt, set_tty a w).
Proof. intros Htty. unfold tcsetattr. now rewrite Htty. Qed.

Lemma try_finally_run {A} (body : M termattrs A) (fin : M termattrs unit)
    w (o : outcome A) w1 w2 :
  body w = (o, w1) -> o <> Blocked -> fin w1 = (Return tt, w2) ->
  try_finally body fin w = (o, w2).
Proof.
  intros Hbody Ho Hfin. unfold try_finally. rewrite Hbody.
  destruct o; try congruence; now rewrite Hfin.
Qed.

Lemma try_finally_blocked {A} (body : M termattrs A)
    (fin : M termattrs unit) w w1 :
  body w = (Blocked, w1) -> try_finally body fin w = (Blocked, w1).
Proof. intros Hbody. unfold try_finally. now rewrite Hbody. Qed.

Lemma try_finally_fin_raises {A} (body : M termattrs A)
    (fin : M termattrs unit) w (o : outcome A) w1 (e : exn) w2 :
  body w = (o, w1) -> o <> Blocked -> fin w1 = (Raise e, w2) ->
  try_finally body fin w = (Raise e, w2).
Proof.
  intros Hbody Ho Hfin. unfold try_finally. rewrite Hbody.
  destruct o; try congruence; now rewrite Hfin.
Qed.

(** The guarded part of [interactive_select] never touches the files.  It
    is blocked, in raw mode, when the loop is; it ends as the loop does,
    with the captured attributes restored; or, the terminal having hung up
    under the loop, it raises the error of the restoration. *)
Lemma guarded_run ts (inp : list input) w (a : termattrs) :
  tty_attrs w = Some a ->
  exists (r : outcome loop_exit) w',
    try_finally
      (setraw setraw_attrs ;;
       loop ts inp 0 (repeat false (List.length ts)))
      (tcsetattr a) w
    = (r, w')
    /\ same_files w w'
    /\ ((r = Blocked /\ tty_attrs w' = Some (setraw_attrs a))
        \/ (r <> Blocked /\ tty_attrs w' = Some a)
        \/ (In Hangup inp /\ r = Raise TermiosError /\ tty_attrs w' = None)).
Proof.
  intros Htty.
  pose (w1 := set_tty (setraw_attrs a) w).
  assert (Hw1 : same_files w w1) by apply same_files_set_tty.
  pose proof (survives_loop ts inp 0 (repeat false (List.length ts)) w1)
    as Hloop.
  destruct (loop ts inp 0 (repeat false (List.length ts)) w1)
    as [r w2] eqn:Hrun.
  cbn [fst snd] in Hloop.
  assert (Hbody : (setraw setraw_attrs ;;
                   loop ts inp 0 (repeat false (List.length ts))) w
                  = (r, w2)).
  { rewrite (bind_return _ _ w tt w1) by now apply setraw_run.
    exact Hrun. }
  destruct Hloop as [Hframe | (Hin & Hfiles & Hnone & e & ->)].
  - assert (Hraw : tty_attrs w2 = Some (setraw_attrs a))
      by (destruct Hframe as (_ & -> & _); reflexivity).
    assert (Hw2 : same_files w w2)
      by (eapply same_files_trans; [exact Hw1 | now apply frame_same_files]).
    destruct r as [x | e |].
    + exists (Return x), (set_tty a w2). split; [| split].
      * eapply try_finally_run;
          [exact Hbody | discriminate | eapply tcsetattr_run, Hraw].
      * eapply same_files_trans; [exact Hw2 | apply same_files_set_tty].
      * right. left. split; [discriminate | reflexivity].
    + exists (Raise e), (set_tty a w2). split; [| split].
      * eapply try_finally_run;
          [exact Hbody | discriminate | eapply tcsetattr_run, Hraw].
      * eapply same_files_trans; [exact Hw2 | apply same_files_set_tty].
      * right. left. split; [discriminate | reflexivity].
    + exists Blocked, w2. split; [| split].
      * now apply try_finally_blocked.
      * exact Hw2.
      * left. auto.
  - exists (Raise TermiosError), w2. split; [| split].
    + eapply try_finally_fin_raises; [exact Hbody | discriminate |].
      unfold tcsetattr. now rewrite Hnone.
    + eapply same_files_trans; [exact Hw1 | exact Hfiles].
    + right. right. auto.
Qed.

Lemma loop_enter ts (enter : ascii) (rest : list input) (cur : Z)
    (sel : list bool) :
  enter = CR \/ enter = LF -> List.length sel = List.length ts ->
  succeeds (termattrs := termattrs)
    (loop ts (Byte enter :: rest) cur sel) (Break sel).
Proof.
  intros Henter Hlen. rewrite loop_unfold.
  eapply succeeds_bind; [now apply succeeds_render |].
  destruct Henter as [-> | ->]; apply succeeds_ret.
Qed.

Lemma loop_quit ts (quit : ascii) (rest : list input) (cur : Z)
    (sel : list bool) :
  quit = "q"%char \/ quit = ETX -> List.length sel = List.length ts ->
  succeeds (termattrs := termattrs)
    (loop ts (Byte quit :: rest) cur sel) ReturnEmpty.
Proof.
  intros Hquit Hlen. rewrite loop_unfold.
  eapply succeeds_bind; [now apply succeeds_render |].
  destruct Hquit as [-> | ->];
    (eapply succeeds_bind; [apply succeeds_write |]);
    (eapply succeeds_bind; [apply succeeds_write |]);
    apply succeeds_ret.
Qed.

Lemma valid_initial ts :
  ts <> [] ->
  valid (List.length ts) (0%Z, repeat false (List.length ts)).
Proof.
  intros Hts. split; cbn [fst snd].
  - destruct ts; [congruence | simpl; lia].
  - apply repeat_length.
Qed.

(** The loop over key events and one closing byte, between the switch to
    raw mode and the restoration. *)
Lemma guarded_loop ts (ks : list key) (last : ascii) (rest : list input)
    (r : list bool -> loop_exit) w (a : termattrs) :
  ts <> [] -> Forall (fun k => key_ok k = true) ks ->
  (forall cur sel, List.length sel = List.length ts ->
     succeeds (termattrs := termattrs)
       (loop ts (Byte last :: rest) cur sel) (r sel)) ->
  tty_attrs w = Some a -> calm w ->
  exists st w',
    run_keys (List.length ts) ks (0%Z, repeat false (List.length ts)) = inr st
    /\ valid (List.length ts) st
    /\ try_finally
         (setraw setraw_attrs ;;
          loop ts (keystrokes ks ++ Byte last :: rest) 0
            (repeat false (List.length ts)))
         (tcsetattr a) w
       = (Return (r (snd st)), w')
    /\ tty_attrs w' = Some a /\ calm w'.
Proof.
  intros Hts Hks Hlast Htty Hw.
  pose (w1 := set_tty (setraw_attrs a) w).
  destruct (loop_keys ts ks (Byte last :: rest) Hks _ w1 (valid_initial ts Hts) Hw)
    as (st & w2 & Hrun & Hst & Hf2 & Hc2 & Hloop).
  destruct (Hlast (fst st) (snd st) (proj2 Hst) w2 Hc2)
    as (w3 & Hend & Hf3 & Hc3).
  exists st, (set_tty a w3).
  split; [exact Hrun |]. split; [exact Hst |].
  split; [| split; [reflexivity | exact Hc3]].
  assert (Htty3 : tty_attrs w3 = Some (setraw_attrs a)).
  { destruct Hf3 as (_ & -> & _), Hf2 as (_ & -> & _). reflexivity. }
  eapply try_finally_run; [| discriminate | eapply tcsetattr_run, Htty3].
  rewrite (bind_return _ _ w tt w1) by now apply setraw_run.
  cbn [fst snd] in Hloop. now rewrite Hloop.
Qed.

(** C1, amended: for a non-empty item sequence, a terminal on standard
    input and no failing write, after any sequence of key events that ends
    in Enter the selection returns the items whose flag is true at that
    time, in the order of the item sequence; a flag is true exactly when
    the number of Space events that met the cursor on it is odd, whatever
    their order. *)
Theorem confirm_returns_selected ts (ks : list key) (enter : ascii)
    (rest : list input) w (a : termattrs) :
  ts <> [] -> Forall (fun k => key_ok k = true) ks ->
  enter = CR \/ enter = LF ->
  tty_attrs w = Some a -> calm w ->
  let n := List.length ts in
  exists cur sel w',
    run_keys n ks (0%Z, repeat false n) = inr (cur, sel)
    /\ List.length sel = n
    /\ (forall i, (i < n)%nat ->
          nth i sel false
          = Nat.odd (count_occ Z.eq_dec
                       (toggled n ks (0%Z, repeat false n)) (Z.of_nat i)))
    /\ interactive_select setraw_attrs ts
         (keystrokes ks ++ Byte enter :: rest) w
       = (Return (items_selected ts sel), w')
    /\ tty_attrs w' = Some a.
Proof.
  intros Hts Hks Henter Htty Hw n.
  destruct (guarded_loop ts ks enter rest Break w a Hts Hks
              (fun cur sel => loop_enter ts enter rest cur sel Henter) Htty Hw)
    as ([cur sel] & w1 & Hrun & Hst & Hguard & Htty1 & Hc1).
  destruct (succeeds_stdout_write clear_screen w1 Hc1)
    as (w2 & Hclear & Hf2 & Hc2).
  exists cur, sel, w2. fold n in Hrun, Hst.
  split; [exact Hrun |]. split; [exact (proj2 Hst) |]. split; [| split].
  - intros i Hi.
    pose proof (run_keys_flags n ks _ _ (valid_initial ts Hts) Hrun i Hi)
      as Hflag.
    cbn [snd] in Hflag. now rewrite Hflag, nth_repeat_false.
  - unfold interactive_select.
    rewrite (bind_return _ _ w a w) by (unfold tcgetattr; now rewrite Htty).
    rewrite (bind_return _ _ _ _ _ Hguard). cbn [snd].
    rewrite (bind_return _ _ _ _ _ Hclear).
    assert (Hsel : select_items ts 0 sel = inr (items_selected ts sel)).
    { apply (select_items_spec ts sel 0). destruct Hst; simpl in *; lia. }
    now rewrite Hsel.
  - destruct Hf2 as (_ & -> & _). exact Htty1.
Qed.

(** C4, amended: for a non-empty item sequence, a terminal on standard
    input and no failing write, after any sequence of key events followed
    by q or the interrupt character the selection returns the empty list,
    whatever flags were true at that time. *)
Theorem cancel_returns_empty ts (ks : list key) (quit : ascii)
    (rest : list input) w (a : termattrs) :
  ts <> [] -> Forall (fun k => key_ok k = true) ks ->
  quit = "q"%char \/ quit = ETX ->
  tty_attrs w = Some a -> calm w ->
  exists st w',
    run_keys (List.length ts) ks (0%Z, repeat false (List.length ts)) = inr st
    /\ interactive_select setraw_attrs ts
         (keystrokes ks ++ Byte quit :: rest) w
       = (Return [], w')
    /\ tty_attrs w' = Some a.
Proof.
  intros Hts Hks Hquit Htty Hw.
  destruct (guarded_loop ts ks quit rest (fun _ => ReturnEmpty) w a Hts Hks
              (fun cur sel => loop_quit ts quit rest cur sel Hquit) Htty Hw)
    as (st & w1 & Hrun & Hst & Hguard & Htty1 & Hc1).
  exists st, w1. split; [exact Hrun |]. split; [| exact Htty1].
  unfold interactive_select.
  rewrite (bind_return _ _ w a w) by (unfold tcgetattr; now rewrite Htty).
  now rewrite (bind_return _ _ _ _ _ Hguard).
Qed.

Lemma after_break_frame ts (sel : list bool) w :
  frame w (snd ((stdout_write clear_screen ;;
                 lift (select_items ts 0 sel)) w)).
Proof.
  apply (preserves_bind (stdout_write clear_screen)
           (fun _ => lift (select_items ts 0 sel))
           (preserves_stdout_write _) (fun _ => preserves_lift _)).
Qed.

(** What [interactive_select] leaves of the world, whatever the items,
    the input and the faults of the streams. *)
Lemma interactive_select_world ts (inp : list input) w
    (o : outcome (list template)) w' :
  interactive_select setraw_attrs ts inp w = (o, w') ->
  same_files w w'
  /\ ((o = Blocked /\ tty_attrs w' = option_map setraw_attrs (tty_attrs w))
      \/ (o <> Blocked /\ tty_attrs w' = tty_attrs w)
      \/ (In Hangup inp /\ o = Raise TermiosError /\ tty_attrs w' = None)).
Proof.
  unfold interactive_select.
  destruct (tty_attrs w) as [a |] eqn:Htty.
  - rewrite (bind_return _ _ w a w) by (unfold tcgetattr; now rewrite Htty).
    destruct (guarded_run ts inp w a Htty) as (r & w2 & Hguard & Hfiles & Hr).
    unfold bind at 1. rewrite Hguard.
    destruct r as [[sel |] | e |].
    + intros Hrun.
      pose proof (after_break_frame ts sel w2) as Hkeep.
      rewrite Hrun in Hkeep. cbn [snd] in Hkeep.
      destruct Hr as [[Hr _] | [[_ Hr] | (_ & Hr & _)]]; try discriminate.
      split.
      * eapply same_files_trans; [exact Hfiles | now apply frame_same_files].
      * right. left. split.
        -- intros ->. revert Hrun. unfold bind, stdout_write.
           destruct (stdout_fault w2) as [[[| m] e] |];
             try discriminate; destruct (select_items ts 0 sel); discriminate.
        -- destruct Hkeep as (_ & -> & _). exact Hr.
    + intros [= <- <-].
      destruct Hr as [[Hr _] | [[_ Hr] | (_ & Hr & _)]]; try discriminate.
      split; [exact Hfiles |]. right. left. split; [discriminate | exact Hr].
    + intros [= <- <-]. split; [exact Hfiles |].
      destruct Hr as [[Hr _] | [[_ Hr] | (Hin & Hr & Hnone)]];
        try discriminate.
      * right. left. split; [discriminate | exact Hr].
      * injection Hr as ->. right. right. auto.
    + intros [= <- <-]. split; [exact Hfiles |].
      destruct Hr as [[_ Hr] | [[Hr _] | (_ & Hr & _)]];
        [| congruence | discriminate].
      left. auto.
  - unfold bind, tcgetattr. rewrite Htty. intros [= <- <-].
    split; [apply same_files_refl |].
    right. left. split; [discriminate | exact Htty].
Qed.

(** C6, amended: however the interactive selection is left, by Enter, by
    q or the interrupt character, or by an error raised while reading or
    while rendering, the restoration of the captured attributes runs
    before it returns or raises: the terminal attributes are then those
    captured when it began, unless the terminal has hung up under the
    loop, in which case the restoration itself raises termios.error, which
    is what the selection raises, and nothing is restored.  On an input
    without hang-up the attributes are restored on every exit. *)
Theorem terminal_restored ts (inp : list input) w
    (o : outcome (list template)) w' :
  interactive_select setraw_attrs ts inp w = (o, w') ->
  o <> Blocked ->
  (tty_attrs w' = tty_attrs w
   \/ (In Hangup inp /\ o = Raise TermiosError /\ tty_attrs w' = None))
  /\ (~ In Hangup inp -> tty_attrs w' = tty_attrs w).
Proof.
  intros Hrun Hexit.
  destruct (interactive_select_world ts inp w o w' Hrun)
    as (_ & [[Ho _] | [[_ Htty] | (Hin & Ho & Hnone)]]).
  - contradiction.
  - auto.
  - split; [right; auto | intros Hno; contradiction].
Qed.

(** While the loop waits for input the terminal is in raw mode: the
    restoration does change it back. *)
Lemma terminal_raw_while_blocked ts (inp : list input) w (a : termattrs) w' :
  tty_attrs w = Some a ->
  interactive_select setraw_attrs ts inp w = (Blocked, w') ->
  tty_attrs w' = Some (setraw_attrs a).
Proof.
  intros Htty Hrun.
  destruct (interactive_select_world ts inp w Blocked w' Hrun)
    as (_ & [[_ Hraw] | [[Ho _] | (_ & Ho & _)]]);
    [| congruence | discriminate].
  now rewrite Htty in Hraw.
Qed.

End Selection.

(* ===================================================================== *)
(** * Properties of the template scan and of the [go] command *)
(* ===================================================================== *)

(** The scan visits every entry named [*.md], files and directories, at
    any depth, ordered by path components. *)
Example template_paths_example :
  let tree :=
    Dir (Some [("y.MD", File (inr "x"));
               ("sub.md", Dir (Some [("in", Dir (Some [("x.md", File (inr "x"))]))]));
               ("a-b.md", File (inr "x"));
               ("a", Dir (Some [("b.md", File (inr "x"))]));
               (".md", File (inr "x"));
               ("locked", Dir None)]) in
  template_paths
    {| templates_dir := Some tree; tty_attrs := Some false; stdout := [];
       stdout_fault := None; output_fault := None; written := [] |}
  = [[".md"]; ["a"; "b.md"]; ["a-b.md"]; ["sub.md"]; ["sub.md"; "in"; "x.md"]].
Proof. reflexivity. Qed.

(** The scan of the small tree, and the merge of both of its templates:
    the base template comes first, the annotation block of the extension
    is gone, and one separator stands between the two. *)
Example scan_and_merge_example :
  let scanned := match fst (get_all_templates small_world) with
                 | Return l => l
                 | _ => []
                 end in
  let merged := merge_templates (rev scanned) "CLAUDE.md" small_world in
  map rel_path scanned = ["base.md"; "ext.md"]
  /\ map is_base scanned = [true; false]
  /\ map title scanned = ["Base"; "Ext"]
  /\ map description scanned = ["Base body"; "Ext body"]
  /\ map extends scanned = [None; Some "> **Extends:** base.md"]
  /\ fst merged = Return tt
  /\ written (snd merged)
     = [("CLAUDE.md",
         join_lf ["# CLAUDE.md"; EmptyString;
                  "<!-- Generated by prompt-merge.py -->";
                  "<!-- Sources: base.md, ext.md -->"; EmptyString;
                  "# Base" ++ nl ++ nl ++ "Base body";
                  EmptyString; "---"; EmptyString;
                  "# Ext" ++ nl ++ "Ext body"; EmptyString]%string)].
Proof. vm_compute. repeat split. Qed.

(** A whole run of the [go] command: both templates are toggled, Enter
    confirms, the merged file is written, the terminal is cooked again and
    the process ends with status 0. *)
Example go_example :
  let run := main to_raw "templates" "usage"
               {| list_flag := false; command := Some "go";
                  output := "OUT.md" |}
               (keystrokes [Space; ArrowDown; Space] ++ [Byte CR])
               small_world in
  exit_status (fst run) = Some 0%Z
  /\ map fst (written (snd run)) = ["OUT.md"]
  /\ tty_attrs (snd run) = Some false.
Proof. vm_compute. repeat split. Qed.

Section Discovery.
Context {termattrs : Type} (setraw_attrs : termattrs -> termattrs).
Context (templates_dir_name parser_help : string).
Implicit Types (w : world termattrs).

(** C7, amended: when the templates directory does not exist or cannot be
    listed, the scan does not fail: it returns the empty sequence and
    leaves the world as it is; the [go] command then prints that no
    template was found and exits with status 1. *)
Theorem missing_root_no_templates w :
  templates_dir w = None \/ templates_dir w = Some (Dir None) ->
  get_all_templates w = (Return [], w)
  /\ forall (a : args) (inp : list input),
       list_flag a = false -> command a = Some "go" -> calm w ->
       exists w',
         main setraw_attrs templates_dir_name parser_help a inp w
         = (Raise (SystemExit 1), w')
         /\ exit_status (Raise (SystemExit 1)) = Some 1%Z
         /\ stdout w'
            = stdout w ++ [("No templates found in " ++ templates_dir_name
                            ++ nl)%string]
         /\ tty_attrs w' = tty_attrs w.
Proof.
  intros Hroot.
  assert (Hscan : get_all_templates w = (Return [], w)).
  { unfold get_all_templates, template_paths.
    destruct Hroot as [-> | ->]; reflexivity. }
  split; [exact Hscan |].
  intros a inp Hlist Hgo Hw. unfold main. rewrite Hlist, Hgo.
  rewrite (bind_return _ _ _ _ _ Hscan).
  unfold bind, print, stdout_write. rewrite Hw.
  eexists. split; [reflexivity |]. cbn [stdout tty_attrs].
  repeat split.
Qed.

End Discovery.

(* ===================================================================== *)
(** * Concrete runs *)
(* ===================================================================== *)
Lemma confirm_returns_selected_witness :
  exists w',
    interactive_select to_raw three_items
      (keystrokes [Space; VimDown; Space; ArrowDown; Space; ArrowUp; Space]
       ++ [Byte CR]) bare_world
    = (Return [item "a.md"; item "c.md"], w').
Proof.
  destruct (confirm_returns_selected to_raw three_items
              [Space; VimDown; Space; ArrowDown; Space; ArrowUp; Space]
              CR [] bare_world false)
    as (cur & sel & w' & Hrun & _ & _ & Hsel & _).
  - discriminate.
  - repeat constructor.
  - now left.
  - reflexivity.
  - reflexivity.
  - vm_compute in Hrun. injection Hrun as <- <-.
    exists w'. exact Hsel.
Defined.

(** The claim C1 as stated, for every item sequence, fails on the empty
    one: Space indexes the empty flag list and the selection raises. *)
Lemma confirm_without_items_raises :
  fst (interactive_select to_raw [] (keystrokes [Space] ++ [Byte CR])
         bare_world)
  = Raise IndexError
  /\ ~ exists l w',
         interactive_select to_raw [] (keystrokes [Space] ++ [Byte CR])
           bare_world
         = (Return l, w').
Proof.
  split; [reflexivity |].
  intros (l & w' & H). vm_compute in H. discriminate.
Qed.

Lemma cancel_returns_empty_witness :
  exists w',
    interactive_select to_raw three_items
      (keystrokes [Space; VimDown; Space; Other "x"] ++ [Byte "q"%char])
      bare_world
    = (Return [], w').
Proof.
  destruct (cancel_returns_empty to_raw three_items
              [Space; VimDown; Space; Other "x"] "q" [] bare_world false)
    as (st & w' & _ & Hsel & _).
  - discriminate.
  - repeat constructor.
  - now left.
  - reflexivity.
  - reflexivity.
  - exists w'. exact Hsel.
Defined.

(** The claim C4 as stated, for every item sequence, fails on the empty
    one: a down-move divides by zero before the quit key is read. *)
Lemma cancel_without_items_raises :
  fst (interactive_select to_raw [] (keystrokes [VimDown] ++ [Byte "q"%char])
         bare_world)
  = Raise ZeroDivisionError
  /\ ~ exists w',
         interactive_select to_raw [] (keystrokes [VimDown] ++ [Byte "q"%char])
           bare_world
         = (Return [], w').
Proof.
  split; [reflexivity |].
  intros (w' & H). vm_compute in H. discriminate.
Qed.

Lemma cursor_moves_cyclic_witness :
  step 3 ArrowDown (2%Z, [false; true; false]) = inr (0%Z, [false; true; false])
  /\ step 3 VimUp (0%Z, [false; true; false]) = inr (2%Z, [false; true; false])
  /\ run_keys 3 (repeat VimDown 3) (2%Z, [false; true; false])
     = inr (2%Z, [false; true; false])
  /\ run_keys 3 (repeat ArrowUp 3) (0%Z, [false; true; false])
     = inr (0%Z, [false; true; false]).
Proof.
  destruct (cursor_moves_cyclic three_items [] 2 [false; true; false]
              bare_world) as [Hdown _]; [simpl; lia | simpl; lia |].
  destruct (cursor_moves_cyclic three_items [] 0 [false; true; false]
              bare_world) as [_ Hup]; [simpl; lia | simpl; lia |].
  destruct (Hdown ArrowDown (or_introl eq_refl)) as (H1 & _ & _).
  destruct (Hdown VimDown (or_intror eq_refl)) as (_ & _ & H2).
  destruct (Hup VimUp (or_intror eq_refl)) as (H3 & _ & _).
  destruct (Hup ArrowUp (or_introl eq_refl)) as (_ & _ & H4).
  repeat split; assumption.
Defined.

Lemma terminal_restored_witness :
  tty_attrs (snd (interactive_select to_raw three_items
                    [Byte "j"%char; Byte " "%char; Fault OSError] bare_world))
  = Some false.
Proof.
  apply (terminal_restored to_raw three_items
           [Byte "j"%char; Byte " "%char; Fault OSError] bare_world
           (fst (interactive_select to_raw three_items
                   [Byte "j"%char; Byte " "%char; Fault OSError] bare_world))).
  - apply surjective_pairing.
  - vm_compute. discriminate.
  - simpl. intuition discriminate.
Defined.

(** The claim C6 as stated fails when the terminal hangs up under the
    loop: the read raises, the restoration of the finally block raises
    termios.error in its turn, and the selection propagates that error
    with nothing restored. *)
Lemma hangup_not_restored :
  fst (interactive_select to_raw three_items [Byte "j"%char; Hangup]
         bare_world)
  = Raise TermiosError
  /\ tty_attrs (snd (interactive_select to_raw three_items
                       [Byte "j"%char; Hangup] bare_world))
     = None
  /\ tty_attrs bare_world = Some false.
Proof. repeat split. Qed.

Lemma key_event_frame_witness :
  step 3 Space (1%Z, [false; true; false]) = inr (1%Z, [false; false; false])
  /\ forall cur' sel',
       step 3 Space (1%Z, [false; true; false]) = inr (cur', sel') ->
       cur' = 1%Z /\ List.length sel' = 3%nat.
Proof.
  split; [reflexivity |].
  intros cur' sel' Hstep.
  destruct (key_event_frame three_items Space [] 1 [false; true; false]
              bare_world eq_refl) as (_ & _ & Hframe).
  destruct (Hframe cur' sel' Hstep) as (Hcur & Hlen & _).
  split; assumption.
Defined.

Lemma missing_root_no_templates_witness :
  get_all_templates bare_world = (Return [], bare_world)
  /\ exists w',
       main to_raw "templates" "usage"
         {| list_flag := false; command := Some "go"; output := "CLAUDE.md" |}
         [] bare_world
       = (Raise (SystemExit 1), w').
Proof.
  destruct (missing_root_no_templates to_raw "templates" "usage" bare_world
              (or_introl eq_refl)) as [Hscan Hgo].
  split; [exact Hscan |].
  destruct (Hgo {| list_flag := false; command := Some "go";
                   output := "CLAUDE.md" |} [] eq_refl eq_refl eq_refl)
    as (w' & Hmain & _).
  exists w'. exact Hmain.
Defined.

(** The claim C7 as stated fails: on a missing templates directory, and on
    one that cannot be listed, the scan succeeds with no template. *)
Lemma missing_root_scan_succeeds :
  get_all_templates bare_world = (Return [], bare_world)
  /\ (forall e w', get_all_templates bare_world <> (Raise e, w'))
  /\ get_all_templates
       {| templates_dir := Some (Dir None); tty_attrs := Some false;
          stdout := []; stdout_fault := None; output_fault := None;
          written := [] |}
     = (Return [],
        {| templates_dir := Some (Dir None); tty_attrs := Some false;
           stdout := []; stdout_fault := None; output_fault := None;
           written := [] |}).
Proof.
  split; [reflexivity | split; [| reflexivity]].
  intros e w' H. vm_compute in H. discriminate.
Qed.

(* ===================================================================== *)
(** * More on the selection state *)
(* ===================================================================== *)

Lemma list_set_twice {A} (l : list A) (k : nat) (u v : A) :
  list_set (list_set l k u) k v = list_set l k v.
Proof.
  revert k; induction l as [| x l IH]; intros [| k]; simpl; try reflexivity.
  now rewrite IH.
Qed.

Lemma list_set_same {A} (l : list A) (k : nat) (d : A) :
  list_set l k (nth k l d) = l.
Proof.
  revert k; induction l as [| x l IH]; intros [| k]; simpl; try reflexivity.
  now rewrite IH.
Qed.

Lemma toggle_twice (sel : list bool) (c : Z) :
  (0 <= c < Z.of_nat (List.length sel))%Z ->
  exists s, toggle sel c = inr s /\ toggle s c = inr sel.
Proof.
  intros Hc. eexists. split; [now apply toggle_in_range |].
  rewrite toggle_in_range by (rewrite length_list_set; lia).
  rewrite nth_list_set_eq by lia.
  rewrite list_set_twice, negb_involutive. now rewrite list_set_same.
Qed.

Section SelectionMore.
Context {termattrs : Type} (setraw_attrs : termattrs -> termattrs).
Implicit Types (w : world termattrs) (ts : list template).

(** X1: two Space events in a row leave the selection as it was: the flag
    under the cursor is back to its value, the other flags and the cursor
    never moved, and the loop goes on with the rest of the input in a
    world where only the screen has been redrawn. *)
Theorem double_toggle_restores ts (rest : list input) (c : Z)
    (sel : list bool) w :
  valid (List.length ts) (c, sel) -> calm w ->
  run_keys (List.length ts) [Space; Space] (c, sel) = inr (c, sel)
  /\ exists w',
       frame w w' /\ calm w'
       /\ loop ts (keystrokes [Space; Space] ++ rest) c sel w
          = loop ts rest c sel w'.
Proof.
  intros Hst Hw.
  assert (Hrun : run_keys (List.length ts) [Space; Space] (c, sel)
                 = inr (c, sel)).
  { destruct Hst as [Hc Hlen]; cbn [fst snd] in *.
    destruct (toggle_twice sel c) as (s & H1 & H2); [lia |].
    cbn [run_keys step]. rewrite H1. cbn [run_keys step]. now rewrite H2. }
  split; [exact Hrun |].
  assert (Hok : Forall (fun k => key_ok k = true) [Space; Space])
    by (repeat constructor).
  destruct (loop_keys ts [Space; Space] rest Hok (c, sel) w Hst Hw)
    as (st' & w' & Hrun' & _ & Hf & Hc' & Hloop).
  rewrite Hrun in Hrun'. injection Hrun' as <-.
  exists w'. auto.
Qed.

(** X2: a move up followed by a move down, and a move down followed by a
    move up, bring the cursor back, whichever of the arrow and the letter
    is used for each. *)
Theorem opposite_moves_cancel (n : nat) (c : Z) (sel : list bool)
    (up down : key) :
  valid n (c, sel) ->
  up = ArrowUp \/ up = VimUp -> down = ArrowDown \/ down = VimDown ->
  run_keys n [up; down] (c, sel) = inr (c, sel)
  /\ run_keys n [down; up] (c, sel) = inr (c, sel).
Proof.
  intros [Hc Hlen] Hup Hdown; cbn [fst snd] in *.
  assert (Hn : (1 <= n)%nat) by lia.
  split; cbn [run_keys].
  - rewrite (step_up n c sel up Hn Hup), (step_down n _ sel down Hn Hdown).
    do 2 f_equal. rewrite Zplus_mod_idemp_l.
    replace (c - 1 + Z.of_nat n + 1)%Z with (c + 1 * Z.of_nat n)%Z by lia.
    rewrite Z_mod_plus_full. now apply Z.mod_small.
  - rewrite (step_down n c sel down Hn Hdown), (step_up n _ sel up Hn Hup).
    do 2 f_equal. rewrite <- Zplus_mod_idemp_l, <- Zminus_mod_idemp_l.
    rewrite Zmod_mod, Zminus_mod_idemp_l, Zplus_mod_idemp_l.
    replace (c + 1 - 1 + Z.of_nat n)%Z with (c + 1 * Z.of_nat n)%Z by lia.
    rewrite Z_mod_plus_full. now apply Z.mod_small.
Qed.

End SelectionMore.

Section SelectionEdges.
Context {termattrs : Type} (setraw_attrs : termattrs -> termattrs).
Implicit Types (w : world termattrs) (ts : list template).

(** X3: with at least one item, no sequence of key events makes the loop
    raise: from the initial state every event is applied, the cursor stays
    a valid index and there stays one flag per item; the loop reaches the
    rest of the input with the state [run_keys] gives. *)
Theorem keys_never_raise ts (ks : list key) (rest : list input) w :
  ts <> [] -> Forall (fun k => key_ok k = true) ks -> calm w ->
  let n := List.length ts in
  exists cur sel w',
    run_keys n ks (0%Z, repeat false n) = inr (cur, sel)
    /\ (0 <= cur < Z.of_nat n)%Z /\ List.length sel = n
    /\ frame w w'
    /\ loop ts (keystrokes ks ++ rest) 0 (repeat false n) w
       = loop ts rest cur sel w'.
Proof.
  intros Hts Hks Hw n.
  destruct (loop_keys ts ks rest Hks _ w (valid_initial ts Hts) Hw)
    as ([cur sel] & w' & Hrun & [Hcur Hlen] & Hf & _ & Hloop).
  exists cur, sel, w'. cbn [fst snd] in *. auto.
Qed.

Lemma interactive_select_raise ts (inp : list input) w (a : termattrs)
    (e : exn) w1 :
  tty_attrs w = Some a ->
  loop ts inp 0 (repeat false (List.length ts))
    (set_tty (setraw_attrs a) w) = (Raise e, w1) ->
  tty_attrs w1 = Some (setraw_attrs a) ->
  interactive_select setraw_attrs ts inp w = (Raise e, set_tty a w1).
Proof.
  intros Htty Hloop Htty1. unfold interactive_select.
  rewrite (bind_return _ _ w a w) by (unfold tcgetattr; now rewrite Htty).
  assert (Hguard : try_finally
                     (setraw setraw_attrs ;;
                      loop ts inp 0 (repeat false (List.length ts)))
                     (tcsetattr a) w
                   = (Raise e, set_tty a w1)).
  { eapply try_finally_run;
      [| discriminate | eapply tcsetattr_run, Htty1].
    rewrite (bind_return _ _ w tt _ (setraw_run setraw_attrs w a Htty)).
    exact Hloop. }
  unfold bind at 1. now rewrite Hguard.
Qed.

(** X4: with no item at all, the first cursor move makes the selection
    raise ZeroDivisionError and the first Space makes it raise IndexError;
    the terminal attributes are restored all the same. *)
Theorem first_key_raises_without_items (k : key) (rest : list input) w
    (a : termattrs) :
  tty_attrs w = Some a -> calm w ->
  k = ArrowUp \/ k = ArrowDown \/ k = VimUp \/ k = VimDown \/ k = Space ->
  exists w',
    interactive_select setraw_attrs [] (keystrokes [k] ++ rest) w
    = (Raise (if match k with Space => true | _ => false end
              then IndexError else ZeroDivisionError), w')
    /\ tty_attrs w' = Some a.
Proof.
  intros Htty Hw Hk.
  assert (Hc1 : calm (set_tty (setraw_attrs a) w)) by exact Hw.
  destruct (succeeds_render [] 0 [] eq_refl _ Hc1) as (w1 & Hrender & Hf & _).
  exists (set_tty a w1). split; [| reflexivity].
  apply interactive_select_raise;
    [exact Htty | | destruct Hf as (_ & -> & _); reflexivity].
  rewrite loop_key
    by (destruct Hk as [-> | [-> | [-> | [-> | ->]]]]; reflexivity).
  rewrite (bind_return _ _ _ _ _ Hrender).
  destruct Hk as [-> | [-> | [-> | [-> | ->]]]]; reflexivity.
Qed.

(** X5: with at least one item, an input that holds key events but
    neither Enter nor a quit key, be it followed by a lone ESC or by ESC
    and an opening bracket, leaves the selection waiting for input for
    ever, with the terminal in raw mode. *)
Theorem selection_waits_without_terminal_key ts (ks : list key)
    (tail : list input) w (a : termattrs) :
  ts <> [] -> Forall (fun k => key_ok k = true) ks ->
  tail = [] \/ tail = [Byte ESC] \/ tail = [Byte ESC; Byte "["%char] ->
  tty_attrs w = Some a -> calm w ->
  exists w',
    interactive_select setraw_attrs ts (keystrokes ks ++ tail) w
    = (Blocked, w')
    /\ tty_attrs w' = Some (setraw_attrs a).
Proof.
  intros Hts Hks Htail Htty Hw.
  assert (Hc1 : calm (set_tty (setraw_attrs a) w)) by exact Hw.
  destruct (loop_keys ts ks tail Hks _ _ (valid_initial ts Hts) Hc1)
    as (st & w2 & _ & [_ Hlen] & Hf2 & Hc2 & Hloop).
  destruct (succeeds_render ts (fst st) (snd st) Hlen w2 Hc2)
    as (w3 & Hrender & Hf3 & _).
  exists w3. split.
  - unfold interactive_select.
    rewrite (bind_return _ _ w a w) by (unfold tcgetattr; now rewrite Htty).
    assert (Hguard : try_finally
                       (setraw setraw_attrs ;;
                        loop ts (keystrokes ks ++ tail) 0
                          (repeat false (List.length ts)))
                       (tcsetattr a) w
                     = (Blocked, w3)).
    { apply try_finally_blocked.
      rewrite (bind_return _ _ w tt _ (setraw_run setraw_attrs w a Htty)).
      cbn [fst snd] in Hloop. rewrite Hloop, loop_unfold.
      rewrite (bind_return _ _ _ _ _ Hrender).
      destruct Htail as [-> | [-> | ->]]; reflexivity. }
    unfold bind at 1. now rewrite Hguard.
  - destruct Hf3 as (_ & -> & _), Hf2 as (_ & -> & _). reflexivity.
Qed.

End SelectionEdges.

(* ===================================================================== *)
(** * What is written to the standard output *)
(* ===================================================================== *)

Arguments for_each {termattrs A} l body w.
Arguments map_m {termattrs A B} f l w.
Arguments open_write {termattrs} output_path text w.
Arguments merge_bodies {termattrs} templates i merged_content w.
Arguments list_templates {termattrs} w.

Section Output.
Context {termattrs : Type}.
Implicit Types (w : world termattrs) (ts : list template).

Lemma emit_nil w : emit [] w = w.
Proof. destruct w. unfold emit. simpl. now rewrite app_nil_r. Qed.

Lemma emit_app (o1 o2 : list string) w :
  emit o2 (emit o1 w) = emit (o1 ++ o2) w.
Proof. unfold emit. simpl. now rewrite app_assoc. Qed.

Lemma writes_ret {A} (a : A) : writes (termattrs := termattrs) (ret a) a [].
Proof. intros w _. unfold ret. now rewrite emit_nil. Qed.

Lemma writes_bind {A B} (m : M termattrs A) (k : A -> M termattrs B)
    (a : A) (b : B) (o1 o2 : list string) :
  writes m a o1 -> writes (k a) b o2 -> writes (bind m k) b (o1 ++ o2).
Proof.
  intros Hm Hk w Hw. unfold bind. rewrite (Hm w Hw).
  rewrite (Hk (emit o1 w)) by exact Hw. now rewrite emit_app.
Qed.

Lemma writes_stdout_write (text : string) :
  writes (termattrs := termattrs) (stdout_write text) tt [text].
Proof.
  intros w Hw. unfold stdout_write, emit. red in Hw. now rewrite Hw.
Qed.

Lemma writes_write (text : string) :
  writes (termattrs := termattrs) (write text) tt [replace_lf_crlf text].
Proof. apply writes_stdout_write. Qed.

Lemma writes_print (text : string) :
  writes (termattrs := termattrs) (print text) tt [(text ++ nl)%string].
Proof. apply writes_stdout_write. Qed.

Lemma writes_for_each {A} (l : list A) (body : A -> M termattrs unit)
    (out : A -> list string) :
  (forall x, writes (body x) tt (out x)) ->
  writes (for_each l body) tt (flat_map out l).
Proof.
  intros Hbody. induction l as [| x l IH]; cbn [for_each flat_map].
  - apply writes_ret.
  - eapply writes_bind; [apply Hbody | exact IH].
Qed.

Lemma writes_render_items ts (i : nat) (cur : Z) (sel : list bool) :
  (i + List.length ts <= List.length sel)%nat ->
  writes (termattrs := termattrs)
    (render_items ts (Z.of_nat i) cur sel) tt (rendered_items ts i cur sel).
Proof.
  revert i; induction ts as [| t ts IH]; intros i Hi;
    cbn [render_items rendered_items].
  - apply writes_ret.
  - simpl in Hi.
    rewrite (getitem_in_range sel i false) by lia. cbn [lift].
    apply (writes_bind _ _ _ _ [] _ (writes_ret _)).
    apply (writes_bind _ _ _ _ [_] _ (writes_write _)).
    apply (writes_bind _ _ _ _ [_] _ (writes_write _)).
    replace (Z.of_nat i + 1)%Z with (Z.of_nat (S i)) by lia.
    apply IH. lia.
Qed.

Lemma crlf_only_replace (s : string) (after_cr : bool) :
  crlf_only_from after_cr (replace_lf_crlf s) = true.
Proof.
  revert after_cr; induction s as [| c s IH]; intros after_cr;
    cbn [replace_lf_crlf]; [reflexivity |].
  destruct (Ascii.eqb c LF) eqn:Hc; cbn [crlf_only_from].
  - change (Ascii.eqb CR LF) with false.
    change (Ascii.eqb LF LF) with true.
    change (Ascii.eqb CR CR) with true.
    simpl. apply IH.
  - rewrite Hc. simpl. apply IH.
Qed.

Lemma rendered_items_crlf ts (i : nat) (cur : Z) (sel : list bool) :
  Forall (fun s => crlf_only s = true) (rendered_items ts i cur sel)
  /\ List.length (rendered_items ts i cur sel) = (2 * List.length ts)%nat.
Proof.
  revert i; induction ts as [| t ts IH]; intros i; cbn [rendered_items].
  - split; [constructor | reflexivity].
  - destruct (IH (S i)) as [Hall Hlen]. split.
    + repeat constructor; try apply crlf_only_replace. exact Hall.
    + cbn [List.length]. rewrite Hlen. lia.
Qed.

(** X6: when no write fails, one call of [render] with one flag per item
    returns after writing [3 + 2 N] texts and nothing else: the screen
    clearing, the heading, two texts per item and the count of set flags;
    in every one of them each line feed follows a carriage return. *)
Theorem render_output ts (cur : Z) (sel : list bool) w :
  List.length sel = List.length ts -> calm w ->
  render ts cur sel w = (Return tt, emit (rendered ts cur sel) w)
  /\ List.length (rendered ts cur sel) = (3 + 2 * List.length ts)%nat
  /\ Forall (fun s => crlf_only s = true) (rendered ts cur sel).
Proof.
  intros Hlen Hw.
  destruct (rendered_items_crlf ts 0 cur sel) as [Hall Hcount].
  split; [| split].
  - unfold render, rendered.
    apply (writes_bind _ _ _ _ [_] _ (writes_write _)); [| exact Hw].
    apply (writes_bind _ _ _ _ [_] _ (writes_write _)).
    eapply writes_bind; [| apply writes_write].
    apply (writes_render_items ts 0). simpl. lia.
  - unfold rendered. cbn [List.length app].
    rewrite length_app, Hcount. simpl. lia.
  - unfold rendered. cbn [app].
    repeat (constructor; [apply crlf_only_replace |]).
    apply Forall_app. split; [exact Hall |].
    constructor; [apply crlf_only_replace | constructor].
Qed.

End Output.

(* ===================================================================== *)
(** * More on the extends-annotation filter *)
(* ===================================================================== *)

Lemma filter_lines_kept (lines : list string) (skip : bool) :
  kept_from (filter_lines lines skip) lines.
Proof.
  revert skip; induction lines as [| line rest IH]; intros skip;
    cbn [filter_lines]; [constructor |].
  destruct (startswith line extends_marker || startswith line extension_marker);
    [apply kept_drop, IH |].
  destruct (skip && String.eqb (strip line) EmptyString);
    [apply kept_drop, IH |].
  destruct (skip && startswith line ">"); [apply kept_drop, IH |].
  apply kept_keep, IH.
Qed.

Lemma filter_lines_free (lines : list string) (skip : bool) :
  Forall annotation_free (filter_lines lines skip).
Proof.
  revert skip; induction lines as [| line rest IH]; intros skip;
    cbn [filter_lines]; [constructor |].
  destruct (startswith line extends_marker) eqn:Hext; [apply IH |].
  destruct (startswith line extension_marker) eqn:Hthis; [apply IH |].
  cbn [orb].
  destruct (skip && String.eqb (strip line) EmptyString); [apply IH |].
  destruct (skip && startswith line ">"); [apply IH |].
  constructor; [split; assumption | apply IH].
Qed.

(** X7: whatever the content, the lines the filter keeps are lines of the
    content in their order, none added and none moved, and none of them
    starts with "> **Extends:**" or with "> This extension". *)
Theorem filtered_lines_sound (content : string) :
  kept_from (filtered_lines content) (split_lf content)
  /\ Forall annotation_free (filtered_lines content).
Proof.
  split; [apply filter_lines_kept | apply filter_lines_free].
Qed.

(** X8: filtering what the filter kept changes nothing more: a second
    pass of the loop over its own result gives that result. *)
Theorem filter_lines_idempotent (lines : list string) (skip : bool) :
  filter_lines (filter_lines lines skip) false = filter_lines lines skip.
Proof. apply filter_lines_no_marker, filter_lines_free. Qed.

Lemma split_lf_not_nil (s : string) : split_lf s <> [].
Proof.
  induction s as [| c s IH]; cbn [split_lf]; [discriminate |].
  destruct (Ascii.eqb c LF); [discriminate |].
  destruct (split_lf s); discriminate.
Qed.

Lemma concat_cons_char (sep : string) (c : ascii) (l : string)
    (ls : list string) :
  String.concat sep (String c l :: ls) = String c (String.concat sep (l :: ls)).
Proof. destruct ls; reflexivity. Qed.

(** Joining the lines of a text with newlines gives the text back. *)
Lemma join_split_lf (s : string) : join_lf (split_lf s) = s.
Proof.
  unfold join_lf. induction s as [| c s IH]; cbn [split_lf]; [reflexivity |].
  destruct (Ascii.eqb_spec c LF) as [-> | Hc].
  - destruct (split_lf s) as [| l ls] eqn:E;
      [now destruct (split_lf_not_nil s) |].
    change (String.concat (String LF EmptyString) (EmptyString :: l :: ls))
      with (String LF (String.concat (String LF EmptyString) (l :: ls))).
    now rewrite IH.
  - destruct (split_lf s) as [| l ls] eqn:E;
      [now destruct (split_lf_not_nil s) |].
    now rewrite concat_cons_char, IH.
Qed.

(** X9: for a content without annotation lines the text merged for the
    file is the content itself, stripped of leading and trailing white
    space: splitting, filtering and joining give the content back. *)
Theorem filtered_content_of_plain (content : string) :
  Forall annotation_free (split_lf content) ->
  join_lf (filtered_lines content) = content
  /\ filtered_content content = strip content.
Proof.
  intros Hfree. unfold filtered_content, filtered_lines.
  rewrite (filter_lines_no_marker _ Hfree), join_split_lf. auto.
Qed.

Lemma filtered_content_of_plain_witness :
  filtered_content ("# Base" ++ nl ++ nl ++ "Base body" ++ nl)
  = ("# Base" ++ nl ++ nl ++ "Base body")%string.
Proof.
  assert (H : Forall annotation_free
                (split_lf ("# Base" ++ nl ++ nl ++ "Base body" ++ nl))).
  { vm_compute. repeat constructor. }
  rewrite (proj2 (filtered_content_of_plain _ H)). reflexivity.
Defined.

(* ===================================================================== *)
(** * Properties of [merge_templates] *)
(* ===================================================================== *)

Section Merge.
Context {termattrs : Type}.
Implicit Types (w : world termattrs) (ts : list template).

Lemma open_read_world (p : relpath) w : snd (open_read p w) = w.
Proof.
  unfold open_read. destruct (templates_dir w) as [root |]; [| reflexivity].
  destruct (find_node root p) as [[[e | text] | [es |]] |]; reflexivity.
Qed.

Lemma merge_bodies_world ts (i : nat) (acc : list string) w :
  snd (merge_bodies ts i acc w) = w.
Proof.
  revert i acc; induction ts as [| t ts IH]; intros i acc;
    cbn [merge_bodies]; [reflexivity |].
  unfold bind. pose proof (open_read_world (path t) w) as Hw.
  destruct (open_read (path t) w) as [[c | e |] w1]; cbn [snd] in Hw; subst w1;
    [apply IH | reflexivity | reflexivity].
Qed.

Lemma merge_bodies_ok ts (cs : list string) w :
  Forall2 (readable w) ts cs ->
  forall (i : nat) (acc : list string),
    merge_bodies ts i acc w
    = (Return (acc ++ (if (0 <? i)%nat
                       then flat_map (fun b => [EmptyString; "---";
                                                EmptyString; b])
                                     (map filtered_content cs)
                       else separated (map filtered_content cs))), w).
Proof.
  induction 1 as [| t c ts cs Ht _ IH]; intros i acc; cbn [merge_bodies].
  - unfold ret. destruct (0 <? i)%nat; simpl; now rewrite app_nil_r.
  - rewrite (bind_return _ _ _ _ _ Ht), IH.
    fold (filtered_content c).
    destruct i; cbn [Nat.ltb Nat.leb map flat_map separated];
      rewrite <- !app_assoc; reflexivity.
Qed.

Lemma merge_bodies_fail (pre : list template) (cs : list string)
    (t : template) (post : list template) (e : exn) w :
  Forall2 (readable w) pre cs ->
  fst (open_read (path t) w) = Raise e ->
  forall (i : nat) (acc : list string),
    merge_bodies (pre ++ t :: post) i acc w = (Raise e, w).
Proof.
  intros Hpre Ht.
  induction Hpre as [| u c pre cs Hu _ IH]; intros i acc;
    cbn [app merge_bodies].
  - unfold bind. pose proof (open_read_world (path t) w) as Hw.
    destruct (open_read (path t) w) as [o w1]; cbn [fst snd] in *.
    now subst.
  - rewrite (bind_return _ _ _ _ _ Hu). apply IH.
Qed.

Lemma flat_map_singleton {A B} (f : A -> B) (l : list A) :
  flat_map (fun x => [f x]) l = map f l.
Proof.
  induction l as [| x l IH]; cbn [flat_map map app]; [reflexivity |].
  now rewrite IH.
Qed.

Lemma string_app_assoc (a b c : string) :
  ((a ++ b) ++ c = a ++ b ++ c)%string.
Proof. induction a as [| x a IH]; simpl; congruence. Qed.


Lemma writes_merge_report ts (output_path : string) :
  writes (termattrs := termattrs)
    (print ("Merged " ++ str_of_nat (List.length ts)
            ++ " template(s) into " ++ output_path) ;;
     print (nl ++ "Included templates:") ;;
     for_each ts (fun t => print ("  - " ++ rel_path t)))
    tt (merge_report ts output_path).
Proof.
  unfold merge_report.
  apply (writes_bind _ _ tt tt [_] _).
  { replace ("Merged " ++ str_of_nat (List.length ts) ++ " template(s) into "
             ++ output_path ++ nl)%string
      with (("Merged " ++ str_of_nat (List.length ts) ++ " template(s) into "
             ++ output_path) ++ nl)%string
      by (now rewrite !string_app_assoc).
    apply writes_print. }
  apply (writes_bind _ _ tt tt [_] _); [apply (writes_print (nl ++ _)) |].
  rewrite <- flat_map_singleton.
  apply writes_for_each. intros t. apply (writes_print ("  - " ++ _)).
Qed.

End Merge.

Section MergeResults.
Context {termattrs : Type}.
Implicit Types (w : world termattrs) (ts : list template).

Lemma merge_templates_unfold (t : template) ts (output_path : string) :
  merge_templates (termattrs := termattrs) (t :: ts) output_path
  = (merged_content <- merge_bodies (merge_order (t :: ts)) 0
                         (merged_head (merge_order (t :: ts))) ;;
     open_write output_path (join_lf (merged_content ++ [EmptyString])) ;;
     print ("Merged " ++ str_of_nat (List.length (merge_order (t :: ts)))
            ++ " template(s) into " ++ output_path) ;;
     print (nl ++ "Included templates:") ;;
     for_each (merge_order (t :: ts)) (fun t => print ("  - " ++ rel_path t))).
Proof. reflexivity. Qed.

(** A merge that meets no failure: what it writes and what it prints. *)
Lemma merge_run ts (cs : list string) (output_path : string) w :
  ts <> [] -> Forall2 (readable w) (merge_order ts) cs ->
  output_fault w = None -> calm w ->
  exists w',
    merge_templates ts output_path w = (Return tt, w')
    /\ written w'
       = written w
         ++ [(output_path,
              join_lf (merged_head (merge_order ts)
                       ++ separated (map filtered_content cs)
                       ++ [EmptyString]))]
    /\ stdout w' = stdout w ++ merge_report (merge_order ts) output_path
    /\ tty_attrs w' = tty_attrs w.
Proof.
  intros Hts Hread Hfault Hw.
  destruct ts as [| t ts]; [congruence |].
  rewrite merge_templates_unfold.
  rewrite (bind_return _ _ _ _ _ (merge_bodies_ok _ _ _ Hread 0 _)).
  cbn [Nat.ltb Nat.leb].
  unfold bind at 1, open_write at 1. rewrite Hfault.
  rewrite (writes_merge_report (merge_order (t :: ts)) output_path)
    by exact Hw.
  eexists. split; [reflexivity |]. cbn [written stdout tty_attrs emit].
  rewrite <- app_assoc. repeat split.
Qed.

(** C2: the merge of a non-empty list processes the templates sorted by
    the key (not is_base, rel_path).  That order holds the same templates,
    every base template stands in it before every template that is not
    one, and two templates of the same group stand by ascending path; it
    is in that order that the merge reads the files, lists the sources,
    lays the texts out in the output file and lists the templates in its
    report. *)
Theorem merge_order_base_first ts (cs : list string) (output_path : string)
    w :
  ts <> [] ->
  let order := merge_order ts in
  Permutation ts order
  /\ (forall i j t u, (i < j)%nat ->
        nth_error order i = Some t -> nth_error order j = Some u ->
        (is_base u = true -> is_base t = true)
        /\ (is_base t = is_base u ->
            String.leb (rel_path t) (rel_path u) = true))
  /\ merge_templates ts output_path w
     = (merged_content <- merge_bodies order 0 (merged_head order) ;;
        open_write output_path (join_lf (merged_content ++ [EmptyString])) ;;
        print ("Merged " ++ str_of_nat (List.length order)
               ++ " template(s) into " ++ output_path) ;;
        print (nl ++ "Included templates:") ;;
        for_each order (fun t => print ("  - " ++ rel_path t))) w
  /\ (Forall2 (readable w) order cs -> output_fault w = None -> calm w ->
      exists w',
        merge_templates ts output_path w = (Return tt, w')
        /\ written w'
           = written w
             ++ [(output_path,
                  join_lf (merged_head order
                           ++ separated (map filtered_content cs)
                           ++ [EmptyString]))]
        /\ stdout w' = stdout w ++ merge_report order output_path).
Proof.
  intros Hts order.
  destruct (merge_order_sorted ts) as (Hperm & _ & Hpairs).
  split; [exact Hperm | split; [exact Hpairs | split]].
  - destruct ts as [| t ts]; [congruence |].
    now rewrite merge_templates_unfold.
  - intros Hread Hfault Hw.
    destruct (merge_run ts cs output_path w Hts Hread Hfault Hw)
      as (w' & Hrun & Hwritten & Hout & _).
    exists w'. auto.
Qed.


(** X11: when the file of one of the templates cannot be read, those
    before it in merge order being read, the merge raises the error of that
    read and leaves the world as it is: no output file is written and
    nothing is printed. *)
Theorem merge_read_failure ts (pre : list template) (cs : list string)
    (t : template) (post : list template) (e : exn)
    (output_path : string) w :
  merge_order ts = pre ++ t :: post ->
  Forall2 (readable w) pre cs ->
  fst (open_read (path t) w) = Raise e ->
  merge_templates ts output_path w = (Raise e, w).
Proof.
  intros Horder Hpre Ht.
  destruct ts as [| t0 ts]; [now destruct pre |].
  rewrite merge_templates_unfold, Horder.
  unfold bind at 1. now rewrite (merge_bodies_fail pre cs t post e w Hpre Ht).
Qed.

(** X12: when the output file cannot be opened for writing, the merge,
    having read every template, raises that error and leaves the world as
    it is: nothing is printed. *)
Theorem merge_write_failure ts (cs : list string) (e : exn)
    (output_path : string) w :
  ts <> [] -> Forall2 (readable w) (merge_order ts) cs ->
  output_fault w = Some e ->
  merge_templates ts output_path w = (Raise e, w).
Proof.
  intros Hts Hread Hfault.
  destruct ts as [| t ts]; [congruence |].
  rewrite merge_templates_unfold.
  rewrite (bind_return _ _ _ _ _ (merge_bodies_ok _ _ _ Hread 0 _)).
  unfold bind at 1, open_write at 1. now rewrite Hfault.
Qed.

Lemma preserves_print (text : string) :
  preserves (termattrs := termattrs) (print text).
Proof. apply preserves_stdout_write. Qed.

Lemma preserves_for_each {A} (l : list A) (body : A -> M termattrs unit) :
  (forall x, preserves (body x)) -> preserves (for_each l body).
Proof.
  intros Hbody. induction l as [| x l IH]; cbn [for_each].
  - apply preserves_ret.
  - apply preserves_bind; [apply Hbody | intros _; exact IH].
Qed.

Lemma merge_templates_world ts (output_path : string) w
    (o : outcome unit) w' :
  merge_templates ts output_path w = (o, w') ->
  (written w' = written w
   \/ exists text, written w' = written w ++ [(output_path, text)])
  /\ tty_attrs w' = tty_attrs w.
Proof.
  destruct ts as [| t ts].
  - unfold merge_templates. intros Hrun.
    destruct (preserves_print "No templates selected." w) as (Hd & Ht & _ & Hw).
    rewrite Hrun in *. cbn [snd] in *. auto.
  - rewrite merge_templates_unfold. unfold bind at 1.
    pose proof (merge_bodies_world (merge_order (t :: ts)) 0
                  (merged_head (merge_order (t :: ts))) w) as Hsame.
    destruct (merge_bodies _ 0 _ w) as [[merged | e |] w1];
      cbn [snd] in Hsame; subst w1;
      [| intros [= <- <-]; auto | intros [= <- <-]; auto].
    unfold bind at 1, open_write at 1.
    destruct (output_fault w) as [e |]; [intros [= <- <-]; auto |].
    intros Hrun.
    match type of Hrun with
    | ?m ?w1 = _ =>
        assert (Hp : preserves m);
        [| destruct (Hp w1) as (Hd & Ht & _ & Hw)]
    end.
    { apply preserves_bind; [apply preserves_print | intros _].
      apply preserves_bind; [apply preserves_print | intros _].
      apply preserves_for_each. intros x. apply preserves_print. }
    rewrite Hrun in *. cbn [snd written tty_attrs] in *.
    rewrite Ht, Hw. eauto.
Qed.

(** X13: whatever the templates, the files and the faults of the streams,
    the merge writes at most one file, and only at the output path, and it
    never changes the terminal attributes. *)
Theorem merge_writes_only_output ts (output_path : string) w :
  let w' := snd (merge_templates ts output_path w) in
  (written w' = written w
   \/ exists text, written w' = written w ++ [(output_path, text)])
  /\ tty_attrs w' = tty_attrs w.
Proof.
  apply (merge_templates_world ts output_path w
           (fst (merge_templates ts output_path w))).
  apply surjective_pairing.
Qed.

End MergeResults.

(* ===================================================================== *)
(** * More on the merge order *)
(* ===================================================================== *)

Lemma key_leb_antisym (k1 k2 : bool * string) :
  key_leb k1 k2 = true -> key_leb k2 k1 = true -> k1 = k2.
Proof.
  destruct k1 as [[] s1], k2 as [[] s2]; unfold key_leb; simpl;
    try discriminate; intros H1 H2; f_equal; now apply String.leb_antisym.
Qed.

Lemma in_map_injective {A B} (f : A -> B) (l : list A) (x y : A) :
  NoDup (map f l) -> In x l -> In y l -> f x = f y -> x = y.
Proof.
  induction l as [| a l IH]; simpl; [tauto |].
  intros Hnd [-> | Hx] [-> | Hy] Hxy; inversion Hnd as [| ? ? Hnot Hnd'];
    subst; auto.
  - exfalso. apply Hnot. rewrite Hxy. now apply in_map.
  - exfalso. apply Hnot. rewrite <- Hxy. now apply in_map.
Qed.

Section SortedUnique.
Context {A K : Type} (leb : K -> K -> bool) (key : A -> K).

Lemma sorted_of_sorted (l : list A) :
  StronglySorted (le_by leb key) l -> sorted leb key l = l.
Proof.
  induction 1 as [| x l Hl IH Hx]; cbn [sorted]; [reflexivity |].
  rewrite IH. destruct l as [| y l]; [reflexivity |].
  cbn [insert_sorted]. inversion Hx as [| ? ? Hxy _]; subst.
  unfold le_by in Hxy. now rewrite Hxy.
Qed.

Lemma strongly_sorted_unique (l1 l2 : list A) :
  StronglySorted (le_by leb key) l1 -> StronglySorted (le_by leb key) l2 ->
  Permutation l1 l2 ->
  (forall x y, In x l1 -> In y l1 ->
     le_by leb key x y -> le_by leb key y x -> x = y) ->
  l1 = l2.
Proof.
  intros H1. revert l2.
  induction H1 as [| a l1 Hl1 IH Ha]; intros l2 H2 Hperm Hanti.
  - now apply Permutation_nil in Hperm.
  - destruct H2 as [| b l2 Hl2 Hb].
    + apply Permutation_sym, Permutation_nil in Hperm. discriminate.
    + assert (Hab : a = b).
      { assert (Hin_a : In a (b :: l2))
          by (eapply Permutation_in; [exact Hperm | now left]).
        assert (Hin_b : In b (a :: l1))
          by (eapply Permutation_in;
              [apply Permutation_sym, Hperm | now left]).
        destruct Hin_a as [-> | Hin_a]; [reflexivity |].
        destruct Hin_b as [-> | Hin_b]; [reflexivity |].
        rewrite Forall_forall in Ha, Hb.
        apply Hanti; [now left | now right | now apply Ha | now apply Hb]. }
      subst b. f_equal.
      apply IH; [exact Hl2 | eapply Permutation_cons_inv, Hperm |].
      intros x y Hx Hy. apply Hanti; now right.
Qed.
End SortedUnique.

(** X14: the merge order does not depend on the order in which the
    templates are handed over: two lists with the same templates, no two
    of which share a relative path, are merged in the same order. *)
Theorem merge_order_canonical (ts ts' : list template) :
  Permutation ts ts' -> NoDup (map rel_path ts) ->
  merge_order ts = merge_order ts'.
Proof.
  intros Hperm Hnd. unfold merge_order.
  apply (strongly_sorted_unique key_leb merge_key).
  - apply sorted_strongly; [apply key_leb_total | apply key_leb_trans].
  - apply sorted_strongly; [apply key_leb_total | apply key_leb_trans].
  - eapply perm_trans; [apply Permutation_sym, sorted_perm |].
    eapply perm_trans; [exact Hperm | apply sorted_perm].
  - intros x y Hx Hy Hxy Hyx.
    pose proof (key_leb_antisym _ _ Hxy Hyx) as Hkey.
    apply (in_map_injective rel_path ts); auto.
    + eapply Permutation_in;
        [apply Permutation_sym, (sorted_perm key_leb merge_key) | exact Hx].
    + eapply Permutation_in;
        [apply Permutation_sym, (sorted_perm key_leb merge_key) | exact Hy].
    + unfold merge_key in Hkey. congruence.
Qed.

Lemma merge_order_canonical_witness :
  merge_order [item "c.md"; item "base.md"; item "a.md"]
  = merge_order [item "a.md"; item "c.md"; item "base.md"].
Proof.
  apply merge_order_canonical.
  - apply Permutation_sym,
      (Permutation_cons_app [item "c.md"; item "base.md"] []).
    apply Permutation_refl.
  - vm_compute. repeat constructor; simpl; intuition discriminate.
Defined.

(** X15: merging is stable under repetition: the templates taken in merge
    order are already in merge order. *)
Theorem merge_order_idempotent (ts : list template) :
  merge_order (merge_order ts) = merge_order ts.
Proof.
  apply sorted_of_sorted, sorted_strongly;
    [apply key_leb_total | apply key_leb_trans].
Qed.

(* ===================================================================== *)
(** * More on the header scan *)
(* ===================================================================== *)

Lemma len_app (a b : string) : len (a ++ b) = (len a + len b)%nat.
Proof. unfold len. induction a as [| c a IH]; simpl; congruence. Qed.

Lemma truncate80_len (line : string) : (len (truncate80 line) <= 83)%nat.
Proof.
  unfold truncate80. rewrite len_app, len_take.
  pose proof (Nat.le_min_l 80 (len line)) as Hmin.
  destruct (80 <? len line)%nat;
    [change (len "...") with 3%nat | change (len EmptyString) with 0%nat];
    lia.
Qed.

Lemma startswith_first (c d : ascii) (x y : string) :
  startswith (String c x) (String d EmptyString)
  = startswith (String c y) (String d EmptyString).
Proof.
  unfold startswith. cbn [String.prefix].
  destruct (Ascii.ascii_dec d c); [| reflexivity].
  destruct x, y; reflexivity.
Qed.

Lemma truncate80_first (line : string) (d : ascii) :
  line <> EmptyString ->
  startswith (truncate80 line) (String d EmptyString)
  = startswith line (String d EmptyString).
Proof.
  destruct line as [| c l]; [congruence | intros _].
  unfold truncate80. cbn [take append]. apply startswith_first.
Qed.

Lemma scan_header_no_heading (lines : list string) (title : string)
    (ext : option string) :
  Forall (fun raw => startswith (strip raw) "# " = false) lines ->
  h_title (scan_header lines title ext) = title.
Proof.
  intros H. revert title ext.
  induction H as [| raw rest Hraw _ IH]; intros title ext;
    cbn [scan_header]; [reflexivity |].
  rewrite Hraw.
  destruct (startswith (strip raw) extends_marker); [apply IH |].
  destruct (is_description_line (strip raw)); [reflexivity | apply IH].
Qed.

(** X16: the title of a template is taken from the last heading line
    ("# ...") that the scan of the first 10 lines meets, not from the
    first: a heading line reached by the scan and followed by no other
    heading line gives the title, its marker removed and the rest
    stripped; with no heading line at all the title is the stem of the
    file name. *)
Theorem title_from_last_heading (p : relpath) (content : string) :
  (forall pre raw post,
      firstn 10 (readlines content) = pre ++ raw :: post ->
      Forall (fun r => is_description_line (strip r) = false) pre ->
      startswith (strip raw) "# " = true ->
      Forall (fun r => startswith (strip r) "# " = false) post ->
      title (template_of_file p content) = strip (drop 2 (strip raw)))
  /\ (Forall (fun r => startswith (strip r) "# " = false)
             (firstn 10 (readlines content)) ->
      title (template_of_file p content) = stem (name_of p)).
Proof.
  split.
  - intros pre raw post Hlines Hpre Hraw Hpost.
    unfold template_of_file; cbn [title].
    rewrite Hlines, (scan_header_app _ _ _ _ Hpre).
    cbn [scan_header]. rewrite Hraw.
    now apply scan_header_no_heading.
  - intros H. unfold template_of_file; cbn [title].
    now apply scan_header_no_heading.
Qed.

Lemma title_from_last_heading_witness :
  title (template_of_file ["notes.md"]
           ("# First" ++ nl ++ "# Second" ++ nl ++ "Text" ++ nl ++ "More"))
  = "Second".
Proof.
  rewrite (proj1 (title_from_last_heading ["notes.md"]
             ("# First" ++ nl ++ "# Second" ++ nl ++ "Text" ++ nl ++ "More"))
             ["# First" ++ nl]%string ("# Second" ++ nl)%string
             ["Text" ++ nl; "More"]%string eq_refl).
  - reflexivity.
  - repeat constructor.
  - reflexivity.
  - repeat constructor.
Defined.

Lemma scan_header_invariant (lines : list string) :
  forall (title : string) (ext : option string),
    (forall e, ext = Some e -> startswith e extends_marker = true) ->
    let h := scan_header lines title ext in
    (len (h_description h) <= 83)%nat
    /\ (h_description h <> EmptyString ->
        startswith (h_description h) "#" = false
        /\ startswith (h_description h) ">" = false)
    /\ (forall e, h_extends h = Some e -> startswith e extends_marker = true).
Proof.
  induction lines as [| raw rest IH]; intros title ext Hext; cbn [scan_header].
  - cbn. repeat split; try lia; try congruence. exact Hext.
  - destruct (startswith (strip raw) "# "); [now apply IH |].
    destruct (startswith (strip raw) extends_marker) eqn:Hmark.
    { apply IH. now intros e [= <-]. }
    destruct (is_description_line (strip raw)) eqn:Hdesc; [| now apply IH].
    cbn [h_description h_extends].
    unfold is_description_line in Hdesc.
    apply andb_prop in Hdesc as [Hdesc Hquote].
    apply andb_prop in Hdesc as [Hne Hhash].
    apply negb_true_iff in Hne, Hhash, Hquote.
    apply String.eqb_neq in Hne.
    split; [apply truncate80_len |].
    split; [| exact Hext].
    intros _. now rewrite !truncate80_first.
Qed.

(** X17: whatever the file, the description stored for it has at most 83
    characters (80 and the three dots) and, unless it is empty, starts
    neither with '#' nor with '>'; the annotation stored for it, if any,
    starts with "> **Extends:**". *)
Theorem template_metadata_bounds (p : relpath) (content : string) :
  let t := template_of_file p content in
  (len (description t) <= 83)%nat
  /\ (description t <> EmptyString ->
      startswith (description t) "#" = false
      /\ startswith (description t) ">" = false)
  /\ (forall e, extends t = Some e -> startswith e extends_marker = true).
Proof.
  unfold template_of_file. cbn [description extends].
  apply scan_header_invariant. discriminate.
Qed.

(* ===================================================================== *)
(** * More on the template scan *)
(* ===================================================================== *)

Lemma string_ltb_irrefl (a b : string) : String.ltb a b = true -> a <> b.
Proof.
  unfold String.ltb. intros H ->. now rewrite string_compare_refl in H.
Qed.

Lemma string_ltb_total (a b : string) :
  a <> b -> String.ltb a b = true \/ String.ltb b a = true.
Proof.
  intros Hne. unfold String.ltb.
  rewrite (String.compare_antisym b a).
  destruct (String.compare a b) eqn:E; simpl; auto.
  now apply String.compare_eq_iff in E.
Qed.

Lemma string_ltb_trans (a b c : string) :
  String.ltb a b = true -> String.ltb b c = true -> String.ltb a c = true.
Proof.
  unfold String.ltb.
  destruct (String.compare a b) eqn:Hab; try discriminate.
  destruct (String.compare b c) eqn:Hbc; try discriminate.
  now rewrite (string_compare_lt_trans a b c Hab Hbc).
Qed.

Lemma path_leb_total (p q : relpath) :
  path_leb p q = true \/ path_leb q p = true.
Proof.
  revert q; induction p as [| a p IH]; intros [| b q]; cbn [path_leb]; auto.
  destruct (String.eqb_spec a b) as [-> | Hne].
  - rewrite String.eqb_refl. apply IH.
  - destruct (String.eqb_spec b a) as [-> | _]; [congruence |].
    now apply string_ltb_total.
Qed.

Lemma path_leb_trans (p q r : relpath) :
  path_leb p q = true -> path_leb q r = true -> path_leb p r = true.
Proof.
  revert q r; induction p as [| a p IH]; intros [| b q] [| c r];
    cbn [path_leb]; try discriminate; auto.
  destruct (String.eqb_spec a b) as [-> | Hab].
  - destruct (String.eqb_spec b c) as [-> | Hbc]; [apply IH | auto].
  - destruct (String.eqb_spec b c) as [-> | Hbc].
    + destruct (String.eqb_spec a c); [congruence | auto].
    + intros H1 H2. pose proof (string_ltb_trans a b c H1 H2) as H3.
      destruct (String.eqb_spec a c) as [-> | _]; [| exact H3].
      now apply string_ltb_irrefl in H3.
Qed.

Lemma name_of_snoc (prefix : relpath) (name : string) :
  name_of (prefix ++ [name]) = name.
Proof. unfold name_of. apply last_last. Qed.

Lemma rglob_md_names :
  forall (n : node) (prefix : relpath),
    Forall (fun p => endswith (name_of p) ".md" = true) (rglob_md prefix n).
Proof.
  fix names 1.
  intros [content | [entries |]] prefix; cbn [rglob_md];
    [constructor | | constructor].
  induction entries as [| [name child] es IH]; [constructor |].
  apply Forall_app. split; [| apply Forall_app; split].
  - destruct (endswith name ".md") eqn:E; constructor; [| constructor].
    now rewrite name_of_snoc.
  - apply names.
  - exact IH.
Qed.

Section Scan.
Context {termattrs : Type}.
Implicit Types (w : world termattrs).

Lemma map_m_world {A B} (f : A -> M termattrs B) (l : list A) w :
  (forall x w0, snd (f x w0) = w0) -> snd (map_m f l w) = w.
Proof.
  intros Hf. induction l as [| x l IH]; cbn [map_m]; [reflexivity |].
  unfold bind at 1. pose proof (Hf x w) as Hx.
  destruct (f x w) as [[y | e |] w1]; cbn [snd] in Hx; subst w1;
    try reflexivity.
  unfold bind at 1.
  destruct (map_m f l w) as [[ys | e |] w1]; cbn [snd] in IH; subst w1;
    reflexivity.
Qed.

Lemma map_m_ok {A B} (f : A -> M termattrs B) (l : list A) (ys : list B) w :
  Forall2 (fun x y => f x w = (Return y, w)) l ys ->
  map_m f l w = (Return ys, w).
Proof.
  induction 1 as [| x y l ys Hx _ IH]; cbn [map_m]; [reflexivity |].
  rewrite (bind_return _ _ _ _ _ Hx), (bind_return _ _ _ _ _ IH).
  reflexivity.
Qed.

Lemma map_m_inv {A B} (f : A -> M termattrs B) (l : list A) w :
  (forall x w0, snd (f x w0) = w0) ->
  forall ys w', map_m f l w = (Return ys, w') ->
  w' = w /\ Forall2 (fun x y => f x w = (Return y, w)) l ys.
Proof.
  intros Hf. induction l as [| x l IH]; intros ys w'; cbn [map_m].
  - intros [= <- <-]. split; constructor.
  - unfold bind at 1. pose proof (Hf x w) as Hx.
    destruct (f x w) as [[y | e |] w1] eqn:Hfx; cbn [snd] in Hx; subst w1;
      try discriminate.
    unfold bind at 1.
    destruct (map_m f l w) as [[zs | e |] w1] eqn:Hrest; try discriminate.
    destruct (IH zs w1 eq_refl) as [-> Hall].
    intros [= <- <-]. split; [reflexivity | now constructor].
Qed.

Lemma map_m_fail {A B} (f : A -> M termattrs B) (pre : list A)
    (ys : list B) (x : A) (post : list A) (e : exn) w :
  Forall2 (fun x y => f x w = (Return y, w)) pre ys ->
  f x w = (Raise e, w) ->
  map_m f (pre ++ x :: post) w = (Raise e, w).
Proof.
  intros Hpre Hx.
  induction Hpre as [| u y pre ys Hu _ IH]; cbn [app map_m].
  - unfold bind. now rewrite Hx.
  - rewrite (bind_return _ _ _ _ _ Hu). unfold bind at 1. now rewrite IH.
Qed.

Lemma read_template_world (p : relpath) w :
  snd ((content <- open_read p ;; ret (template_of_file p content)) w) = w.
Proof.
  unfold bind. pose proof (open_read_world p w) as H.
  destruct (open_read p w) as [[c | e |] w1]; cbn [snd] in H; now subst.
Qed.

Lemma read_template_return (p : relpath) (t : template) w :
  (content <- open_read p ;; ret (template_of_file p content)) w
  = (Return t, w) ->
  exists c, open_read p w = (Return c, w) /\ t = template_of_file p c.
Proof.
  unfold bind. pose proof (open_read_world p w) as H.
  destruct (open_read p w) as [[c | e |] w1]; cbn [snd] in H; subst;
    try discriminate.
  intros [= <-]. eauto.
Qed.

(** X18: the scan only reads: whatever the file tree and however it ends,
    it leaves the world as it found it. *)
Theorem scan_reads_only w : snd (get_all_templates w) = w.
Proof.
  unfold get_all_templates. apply map_m_world.
  intros p w0. apply read_template_world.
Qed.

(** X19: when the scan returns, it returns one template for every entry
    named [*.md] below the templates directory, at any depth, in ascending
    order of path components; each is what the header scan makes of the
    text of its file. *)
Theorem scan_result (ts : list template) w w' :
  get_all_templates w = (Return ts, w') ->
  map path ts = template_paths w
  /\ StronglySorted (fun t u => path_leb (path t) (path u) = true) ts
  /\ Forall (fun t =>
       endswith (name_of (path t)) ".md" = true
       /\ exists c, open_read (path t) w = (Return c, w)
                    /\ t = template_of_file (path t) c) ts.
Proof.
  unfold get_all_templates. intros Hrun.
  apply map_m_inv in Hrun as [_ Hall];
    [| intros p w0; apply read_template_world].
  assert (Hpaths : map path ts = template_paths w).
  { induction Hall as [| p t ps ts Hp _ IH]; [reflexivity |].
    destruct (read_template_return p t w Hp) as (c & _ & ->).
    cbn [map]. now rewrite IH. }
  assert (Hsorted : StronglySorted (le_by path_leb (fun p => p))
                      (template_paths w)).
  { unfold template_paths. destruct (templates_dir w); [| constructor].
    apply sorted_strongly; [apply path_leb_total | apply path_leb_trans]. }
  assert (Hnames : Forall (fun p => endswith (name_of p) ".md" = true)
                     (template_paths w)).
  { unfold template_paths. destruct (templates_dir w) as [root |];
      [| constructor].
    eapply Permutation_Forall; [apply sorted_perm | apply rglob_md_names]. }
  split; [exact Hpaths | split].
  - rewrite <- Hpaths in Hsorted. clear - Hsorted.
    induction ts as [| t ts IH]; [constructor |].
    cbn [map] in Hsorted. inversion Hsorted as [| ? ? Hs Hf]; subst.
    constructor; [now apply IH |].
    rewrite Forall_map in Hf. exact Hf.
  - clear Hpaths Hsorted.
    induction Hall as [| p t ps ts Hp _ IH]; [constructor |].
    inversion Hnames as [| ? ? Hn Hns]; subst.
    destruct (read_template_return p t w Hp) as (c & Hc & ->).
    constructor; [| now apply IH].
    cbn [path]. eauto.
Qed.

(** X20: when opening and reading an entry named [*.md] raises, those
    before it in path order being read, the scan raises that same error,
    whichever it is, and returns no template at all; the world is as it
    was. *)
Theorem scan_read_failure (pre : list relpath) (cs : list string)
    (p : relpath) (post : list relpath) (e : exn) w :
  template_paths w = pre ++ p :: post ->
  Forall2 (fun q c => open_read q w = (Return c, w)) pre cs ->
  fst (open_read p w) = Raise e ->
  get_all_templates w = (Raise e, w).
Proof.
  intros Hpaths Hpre Hp.
  unfold get_all_templates. rewrite Hpaths.
  apply (map_m_fail _ pre (map (fun qc => template_of_file (fst qc) (snd qc))
                             (combine pre cs))).
  - clear - Hpre. induction Hpre as [| q c pre cs Hq _ IH]; cbn; constructor;
      [now rewrite (bind_return _ _ _ _ _ Hq) | exact IH].
  - unfold bind. pose proof (open_read_world p w) as Hw.
    destruct (open_read p w) as [o w1]; cbn [fst snd] in *. now subst.
Qed.

End Scan.

(* ===================================================================== *)
(** * The selection and the files; what is returned *)
(* ===================================================================== *)

Lemma items_selected_kept (ts : list template) :
  forall sel, List.length sel = List.length ts ->
  kept_from (items_selected ts sel) ts
  /\ List.length (items_selected ts sel) = count_selected sel.
Proof.
  unfold items_selected, count_selected.
  induction ts as [| t ts IH]; intros [| b sel] Hlen; try discriminate.
  - split; [constructor | reflexivity].
  - injection Hlen as Hlen. destruct (IH sel Hlen) as [Hkept Hcount].
    cbn [combine filter]. destruct b; cbn [snd map fst List.length].
    + split; [now apply kept_keep | now rewrite Hcount].
    + split; [now apply kept_drop | exact Hcount].
Qed.

(** X21: with one flag per item, line 145 returns items of the list, in
    the order of the list and none from elsewhere, and as many of them as
    flags are set: the count that the last redraw showed. *)
Theorem returned_items_count (ts : list template) (sel : list bool) :
  List.length sel = List.length ts ->
  exists r,
    select_items ts 0 sel = inr r
    /\ kept_from r ts
    /\ List.length r = count_selected sel.
Proof.
  intros Hlen. exists (items_selected ts sel).
  split; [| now apply items_selected_kept].
  apply (select_items_spec ts sel 0). simpl. lia.
Qed.

Lemma returned_items_count_witness :
  exists r,
    select_items three_items 0 [true; false; true] = inr r
    /\ List.length r = 2%nat.
Proof.
  destruct (returned_items_count three_items [true; false; true] eq_refl)
    as (r & Hr & _ & Hcount).
  exists r. split; [exact Hr | exact Hcount].
Defined.

Section SelectionAndFiles.
Context {termattrs : Type} (setraw_attrs : termattrs -> termattrs).
Implicit Types (w : world termattrs) (ts : list template).

Lemma interactive_select_files ts (inp : list input) w
    (o : outcome (list template)) w' :
  interactive_select setraw_attrs ts inp w = (o, w') -> same_files w w'.
Proof.
  intros Hrun. now destruct (interactive_select_world _ ts inp w o w' Hrun).
Qed.

(** X22: whatever the items, the input and the faults of the streams, and
    however it ends, the interactive selection writes no file and leaves
    the templates directory as it is. *)
Theorem selection_keeps_files ts (inp : list input) w :
  let w' := snd (interactive_select setraw_attrs ts inp w) in
  written w' = written w /\ templates_dir w' = templates_dir w.
Proof.
  destruct (interactive_select_files ts inp w
              (fst (interactive_select setraw_attrs ts inp w))
              (snd (interactive_select setraw_attrs ts inp w)))
    as (Hdir & _ & Hwritten); [apply surjective_pairing |].
  cbn zeta. auto.
Qed.

End SelectionAndFiles.

(* ===================================================================== *)
(** * Properties of [main] *)
(* ===================================================================== *)

Section Main.
Context {termattrs : Type} (setraw_attrs : termattrs -> termattrs).
Context (templates_dir_name parser_help : string).
Implicit Types (w : world termattrs) (ts : list template).

Lemma same_files_calm_confirm ts (ks : list key) (enter : ascii)
    (rest : list input) w (a : termattrs) :
  ts <> [] -> Forall (fun k => key_ok k = true) ks ->
  enter = CR \/ enter = LF -> tty_attrs w = Some a -> calm w ->
  exists cur sel w',
    run_keys (List.length ts) ks (0%Z, repeat false (List.length ts))
    = inr (cur, sel)
    /\ interactive_select setraw_attrs ts
         (keystrokes ks ++ Byte enter :: rest) w
       = (Return (items_selected ts sel), w')
    /\ tty_attrs w' = Some a /\ calm w' /\ same_files w w'.
Proof.
  intros Hts Hks Henter Htty Hw.
  destruct (guarded_loop setraw_attrs ts ks enter rest Break w a Hts Hks
              (fun cur sel => loop_enter ts enter rest cur sel Henter) Htty Hw)
    as ([cur sel] & w1 & Hrun & Hst & Hguard & Htty1 & Hc1).
  destruct (succeeds_stdout_write clear_screen w1 Hc1)
    as (w2 & Hclear & Hf2 & Hc2).
  assert (Hsel : interactive_select setraw_attrs ts
                   (keystrokes ks ++ Byte enter :: rest) w
                 = (Return (items_selected ts sel), w2)).
  { unfold interactive_select.
    rewrite (bind_return _ _ w a w) by (unfold tcgetattr; now rewrite Htty).
    rewrite (bind_return _ _ _ _ _ Hguard). cbn [snd].
    rewrite (bind_return _ _ _ _ _ Hclear).
    assert (H : select_items ts 0 sel = inr (items_selected ts sel)).
    { apply (select_items_spec ts sel 0). destruct Hst; simpl in *; lia. }
    now rewrite H. }
  exists cur, sel, w2.
  split; [exact Hrun | split; [exact Hsel | split; [| split]]].
  - destruct Hf2 as (_ & -> & _). exact Htty1.
  - exact Hc2.
  - eapply interactive_select_files, Hsel.
Qed.

(** X23: the [go] command, when the scan finds templates and the keys end
    in Enter: the selection returns with the terminal attributes as they
    were and no file touched; with no flag set the command ends there,
    otherwise it is the merge of the selected items into the output path
    that goes on from that world. *)
Theorem go_confirm_merges ts (ks : list key) (enter : ascii)
    (rest : list input) (a : args) w (t0 : termattrs) :
  list_flag a = false -> command a = Some "go" ->
  get_all_templates w = (Return ts, w) -> ts <> [] ->
  Forall (fun k => key_ok k = true) ks -> enter = CR \/ enter = LF ->
  tty_attrs w = Some t0 -> calm w ->
  exists cur sel w1,
    run_keys (List.length ts) ks (0%Z, repeat false (List.length ts))
    = inr (cur, sel)
    /\ tty_attrs w1 = Some t0 /\ calm w1 /\ same_files w w1
    /\ main setraw_attrs templates_dir_name parser_help a
         (keystrokes ks ++ Byte enter :: rest) w
       = match items_selected ts sel with
         | [] => (Return tt, w1)
         | _ :: _ => merge_templates (items_selected ts sel) (output a) w1
         end.
Proof.
  intros Hlist Hgo Hscan Hts Hks Henter Htty Hw.
  destruct (same_files_calm_confirm ts ks enter rest w t0 Hts Hks Henter
              Htty Hw)
    as (cur & sel & w1 & Hrun & Hsel & Htty1 & Hc1 & Hfiles).
  exists cur, sel, w1. repeat (split; [assumption |]).
  unfold main. rewrite Hlist, Hgo.
  rewrite (bind_return _ _ _ _ _ Hscan).
  destruct ts as [| t ts]; [congruence |].
  rewrite (bind_return _ _ _ _ _ Hsel).
  destruct (items_selected (t :: ts) sel); reflexivity.
Qed.

(** X24: the [go] command, when the scan finds templates and the keys end
    in q or the interrupt character: the command returns, so the process
    ends with status 0, no file has been written and the terminal
    attributes are as they were. *)
Theorem go_cancel_writes_nothing ts (ks : list key) (quit : ascii)
    (rest : list input) (a : args) w (t0 : termattrs) :
  list_flag a = false -> command a = Some "go" ->
  get_all_templates w = (Return ts, w) -> ts <> [] ->
  Forall (fun k => key_ok k = true) ks ->
  quit = "q"%char \/ quit = ETX ->
  tty_attrs w = Some t0 -> calm w ->
  exists w1,
    main setraw_attrs templates_dir_name parser_help a
      (keystrokes ks ++ Byte quit :: rest) w
    = (Return tt, w1)
    /\ exit_status (Return tt) = Some 0%Z
    /\ written w1 = written w /\ tty_attrs w1 = Some t0.
Proof.
  intros Hlist Hgo Hscan Hts Hks Hquit Htty Hw.
  destruct (guarded_loop setraw_attrs ts ks quit rest (fun _ => ReturnEmpty)
              w t0 Hts Hks
              (fun cur sel => loop_quit ts quit rest cur sel Hquit) Htty Hw)
    as (st & w1 & _ & _ & Hguard & Htty1 & _).
  assert (Hsel : interactive_select setraw_attrs ts
                   (keystrokes ks ++ Byte quit :: rest) w
                 = (Return [], w1)).
  { unfold interactive_select.
    rewrite (bind_return _ _ w t0 w) by (unfold tcgetattr; now rewrite Htty).
    now rewrite (bind_return _ _ _ _ _ Hguard). }
  exists w1. split; [| split; [reflexivity | split; [| exact Htty1]]].
  - unfold main. rewrite Hlist, Hgo.
    rewrite (bind_return _ _ _ _ _ Hscan).
    destruct ts as [| t ts]; [congruence |].
    now rewrite (bind_return _ _ _ _ _ Hsel).
  - now destruct (interactive_select_files setraw_attrs ts _ w _ w1 Hsel)
      as (_ & _ & ->).
Qed.

End Main.

Section Listing.
Context {termattrs : Type} (setraw_attrs : termattrs -> termattrs).
Context (templates_dir_name parser_help : string).
Implicit Types (w : world termattrs) (ts : list template).

Lemma writes_print_as (text out : string) :
  out = (text ++ nl)%string ->
  writes (termattrs := termattrs) (print text) tt [out].
Proof. intros ->. apply writes_print. Qed.

Lemma writes_listing (t : template) :
  writes (termattrs := termattrs)
    (print (nl ++ "  " ++ rel_path t ++ base_marker t) ;;
     print ("    Title: " ++ title t) ;;
     (if negb (String.eqb (description t) EmptyString)
      then print ("    " ++ description t) else ret tt) ;;
     match extends t with
     | Some e => if negb (String.eqb e EmptyString)
                 then print ("    " ++ e) else ret tt
     | None => ret tt
     end)
    tt (listing_of t).
Proof.
  unfold listing_of.
  apply (writes_bind _ _ tt tt [_] _).
  { apply writes_print_as. now rewrite !string_app_assoc. }
  apply (writes_bind _ _ tt tt [_] _).
  { apply writes_print_as. now rewrite !string_app_assoc. }
  apply (writes_bind _ _ tt tt).
  { destruct (String.eqb (description t) EmptyString); cbn [negb];
      [apply writes_ret | apply writes_print_as; now rewrite !string_app_assoc]. }
  destruct (extends t) as [e |]; [| apply writes_ret].
  destruct (String.eqb e EmptyString); cbn [negb];
    [apply writes_ret | apply writes_print_as; now rewrite !string_app_assoc].
Qed.

Lemma writes_list_rest ts :
  writes (termattrs := termattrs)
    (print (nl ++ "Available Templates:") ;;
     print (str_mul "=" 60) ;;
     for_each ts (fun t =>
       print (nl ++ "  " ++ rel_path t ++ base_marker t) ;;
       print ("    Title: " ++ title t) ;;
       (if negb (String.eqb (description t) EmptyString)
        then print ("    " ++ description t) else ret tt) ;;
       match extends t return M termattrs unit with
       | Some e => if negb (String.eqb e EmptyString)
                   then print ("    " ++ e) else ret tt
       | None => ret tt
       end) ;;
     print (nl ++ str_mul "=" 60) ;;
     print ("Total: " ++ str_of_nat (List.length ts)
            ++ " template(s)" ++ nl))
    tt
    ([(nl ++ "Available Templates:" ++ nl)%string;
      (str_mul "=" 60 ++ nl)%string]
     ++ flat_map listing_of ts
     ++ [(nl ++ str_mul "=" 60 ++ nl)%string;
         ("Total: " ++ str_of_nat (List.length ts) ++ " template(s)"
          ++ nl ++ nl)%string]).
Proof.
  apply (writes_bind _ _ tt tt [_] _).
  { apply writes_print_as. now rewrite !string_app_assoc. }
  apply (writes_bind _ _ tt tt [_] _).
  { apply writes_print_as. reflexivity. }
  apply (writes_bind _ _ tt tt).
  { apply writes_for_each. intros t. apply writes_listing. }
  apply (writes_bind _ _ tt tt [_] [_]).
  { apply writes_print_as. now rewrite !string_app_assoc. }
  apply writes_print_as. now rewrite !string_app_assoc.
Qed.

(** X25: with [--list], whatever the command and the input, when the scan
    returns and no print fails: the command prints the heading, a rule of
    60 signs, for every template its path (marked when it is a base
    template) and title, then its description and its annotation when it
    has them, then the rule and the number of templates; it returns, so
    the process ends with status 0, and it leaves the terminal and the
    files as they are. *)
Theorem list_prints_every_template ts (a : args) (inp : list input) w :
  list_flag a = true -> get_all_templates w = (Return ts, w) -> calm w ->
  main setraw_attrs templates_dir_name parser_help a inp w
  = (Return tt,
     emit ([(nl ++ "Available Templates:" ++ nl)%string;
            (str_mul "=" 60 ++ nl)%string]
           ++ flat_map listing_of ts
           ++ [(nl ++ str_mul "=" 60 ++ nl)%string;
               ("Total: " ++ str_of_nat (List.length ts) ++ " template(s)"
                ++ nl ++ nl)%string]) w)
  /\ exit_status (Return tt) = Some 0%Z.
Proof.
  intros Hlist Hscan Hw. split; [| reflexivity].
  unfold main. rewrite Hlist. unfold list_templates.
  rewrite (bind_return _ _ _ _ _ Hscan).
  exact (writes_list_rest ts w Hw).
Qed.

End Listing.

(* ===================================================================== *)
(** * Concrete runs of the further properties *)
(* ===================================================================== *)

Lemma double_toggle_restores_witness :
  run_keys 3 [Space; Space] (1%Z, [false; true; false])
  = inr (1%Z, [false; true; false]).
Proof.
  apply (double_toggle_restores three_items [] 1 [false; true; false]
           bare_world).
  - split; simpl; [lia | reflexivity].
  - reflexivity.
Defined.

Lemma opposite_moves_cancel_witness :
  run_keys 3 [ArrowUp; VimDown] (0%Z, [false; true; false])
  = inr (0%Z, [false; true; false])
  /\ run_keys 3 [VimDown; ArrowUp] (0%Z, [false; true; false])
     = inr (0%Z, [false; true; false]).
Proof.
  apply (opposite_moves_cancel 3 0 [false; true; false] ArrowUp VimDown).
  - split; simpl; [lia | reflexivity].
  - now left.
  - now right.
Defined.

Lemma keys_never_raise_witness :
  exists cur sel,
    run_keys 3 [ArrowUp; Space; Other "x"; Escape2 "q"; VimDown; VimDown]
      (0%Z, [false; false; false])
    = inr (cur, sel)
    /\ (0 <= cur < 3)%Z /\ List.length sel = 3%nat.
Proof.
  destruct (keys_never_raise three_items
              [ArrowUp; Space; Other "x"; Escape2 "q"; VimDown; VimDown]
              [] bare_world)
    as (cur & sel & _ & Hrun & Hcur & Hlen & _).
  - discriminate.
  - repeat constructor.
  - reflexivity.
  - exists cur, sel. auto.
Defined.

Lemma first_key_raises_without_items_witness :
  exists w',
    interactive_select to_raw [] (keystrokes [ArrowUp] ++ [Byte CR]) bare_world
    = (Raise ZeroDivisionError, w')
    /\ tty_attrs w' = Some false.
Proof.
  apply (first_key_raises_without_items to_raw ArrowUp [Byte CR] bare_world
           false).
  - reflexivity.
  - reflexivity.
  - now left.
Defined.

Lemma selection_waits_without_terminal_key_witness :
  exists w',
    interactive_select to_raw three_items
      (keystrokes [Space; VimDown] ++ [Byte ESC]) bare_world
    = (Blocked, w')
    /\ tty_attrs w' = Some true.
Proof.
  apply (selection_waits_without_terminal_key to_raw three_items
           [Space; VimDown] [Byte ESC] bare_world false).
  - discriminate.
  - repeat constructor.
  - right. now left.
  - reflexivity.
  - reflexivity.
Defined.

Lemma render_output_witness :
  List.length (stdout (snd (render three_items 1 [true; false; false]
                              bare_world)))
  = 9%nat.
Proof.
  destruct (render_output three_items 1 [true; false; false] bare_world
              eq_refl eq_refl) as (Hrun & Hlen & _).
  rewrite Hrun. cbn [snd stdout emit bare_world app]. exact Hlen.
Defined.


Lemma merge_read_failure_witness :
  merge_templates [base_item] "OUT.md" bare_world
  = (Raise FileNotFoundError, bare_world).
Proof.
  apply (merge_read_failure [base_item] [] [] base_item []).
  - reflexivity.
  - constructor.
  - reflexivity.
Defined.

Lemma merge_write_failure_witness :
  merge_templates [ext_item; base_item] "OUT.md" readonly_world
  = (Raise PermissionError, readonly_world).
Proof.
  apply (merge_write_failure [ext_item; base_item] [base_text; ext_text]).
  - discriminate.
  - repeat constructor.
  - reflexivity.
Defined.

Lemma scan_result_witness :
  map path [base_item; ext_item] = template_paths small_world.
Proof.
  apply (scan_result [base_item; ext_item] small_world small_world).
  reflexivity.
Defined.

Lemma scan_read_failure_witness :
  get_all_templates odd_world = (Raise IsADirectoryError, odd_world).
Proof.
  apply (scan_read_failure [["a.md"]] ["text"] ["b.md"] []).
  - reflexivity.
  - repeat constructor.
  - reflexivity.
Defined.

Lemma go_confirm_merges_witness :
  exists w1,
    main to_raw "templates" "usage"
      {| list_flag := false; command := Some "go"; output := "OUT.md" |}
      (keystrokes [VimDown; Space] ++ [Byte CR]) small_world
    = merge_templates [ext_item] "OUT.md" w1
    /\ tty_attrs w1 = Some false.
Proof.
  destruct (go_confirm_merges to_raw "templates" "usage"
              [base_item; ext_item] [VimDown; Space] CR []
              {| list_flag := false; command := Some "go";
                 output := "OUT.md" |} small_world false)
    as (cur & sel & w1 & Hrun & Htty & _ & _ & Hmain).
  - reflexivity.
  - reflexivity.
  - reflexivity.
  - discriminate.
  - repeat constructor.
  - now left.
  - reflexivity.
  - reflexivity.
  - vm_compute in Hrun. injection Hrun as <- <-.
    exists w1. split; [exact Hmain | exact Htty].
Defined.

Lemma go_cancel_writes_nothing_witness :
  exists w1,
    main to_raw "templates" "usage"
      {| list_flag := false; command := Some "go"; output := "OUT.md" |}
      (keystrokes [Space; VimDown; Space] ++ [Byte "q"%char]) small_world
    = (Return tt, w1)
    /\ written w1 = [].
Proof.
  destruct (go_cancel_writes_nothing to_raw "templates" "usage"
              [base_item; ext_item] [Space; VimDown; Space] "q" []
              {| list_flag := false; command := Some "go";
                 output := "OUT.md" |} small_world false)
    as (w1 & Hmain & _ & Hwritten & _).
  - reflexivity.
  - reflexivity.
  - reflexivity.
  - discriminate.
  - repeat constructor.
  - now left.
  - reflexivity.
  - reflexivity.
  - exists w1. split; [exact Hmain | exact Hwritten].
Defined.

Lemma list_prints_every_template_witness :
  List.length
    (stdout (snd (main to_raw "templates" "usage"
                    {| list_flag := true; command := None;
                       output := "CLAUDE.md" |} [] small_world)))
  = 11%nat.
Proof.
  destruct (list_prints_every_template to_raw "templates" "usage"
              [base_item; ext_item]
              {| list_flag := true; command := None; output := "CLAUDE.md" |}
              [] small_world eq_refl eq_refl eq_refl) as [Hrun _].
  rewrite Hrun. reflexivity.
Defined.

Lemma merge_order_base_first_witness :
  map rel_path (merge_order [ext_item; base_item]) = ["base.md"; "ext.md"]
  /\ exists w',
       merge_templates [ext_item; base_item] "OUT.md" small_world
       = (Return tt, w')
       /\ stdout w' = merge_report [base_item; ext_item] "OUT.md".
Proof.
  split; [reflexivity |].
  destruct (merge_order_base_first [ext_item; base_item]
              [base_text; ext_text] "OUT.md" small_world)
    as (_ & _ & _ & Hrun); [discriminate |].
  destruct Hrun as (w' & Hmerge & _ & Hout);
    [repeat constructor | reflexivity | reflexivity |].
  exists w'. split; [exact Hmerge | exact Hout].
Defined.

(** The scan raises what the read of an entry raises: here the error of a
    file whose bytes are no text, and that of a directory named like a
    template that cannot be listed. *)
Example scan_read_errors :
  let world_of tree : world bool :=
    {| templates_dir := Some tree; tty_attrs := Some false; stdout := [];
       stdout_fault := None; output_fault := None; written := [] |} in
  fst (get_all_templates
         (world_of (Dir (Some [("a.md", File (inl UnicodeDecodeError))]))))
  = Raise UnicodeDecodeError
  /\ fst (get_all_templates (world_of (Dir (Some [("a.md", Dir None)]))))
     = Raise PermissionError.
Proof. split; reflexivity. Qed.
